(** * Pixel Blaster: a shallow embedding of the game simulation

    Sources: [src/src/pixel_blaster/constants.py], [game/util.py],
    [game/ship.py], [game/asteroid.py], [game/projectile.py],
    [game/game.py] and [game/frame_buffer.py].

    Modelling conventions.
    - Python floats are modelled as real numbers [R] (the claims are about
      real-valued positions and velocities); Python ints as [Z].
    - [x % m] on floats is [x - m * floor (x / m)] ([Py.fmod]);
      [round] is Python's round-half-to-even ([Py.round]).
    - The process-wide numpy generator is an explicit stream of draws, each
      a real in [0, 1), threaded through the game state ([Rand]).
    - Methods that mutate [self] become functions returning the new object;
      [Game] methods run in a small state/exception monad over the game
      state, so that an exception leaves the mutations done before it.
    - The pixels of the frame buffer are not part of the game state: the
      game only observes the range checks of [draw_lives]/[draw_score]
      (which raise).  The frame buffer itself is modelled on its own in
      [FrameBuffer] for the drawing of scores and lives. *)

From Stdlib Require Import ZArith Reals Lra Lia List Bool String Ascii.
Import ListNotations.

Open Scope Z_scope.

(** ** constants.py *)
Module Constants.
Definition TOP_MARGIN : Z := 15.
Definition SCORE_TOP_MARGIN : Z := 3.
Definition LIVES_RIGHT_MARGIN : Z := 10.
Definition SCREEN_WIDTH : Z := 192.
Definition SCREEN_HEIGHT : Z := 160.
Definition MAX_SPEED : Z := 5.
Definition INITIAL_LIVES : Z := 4.
Definition MAX_LIVES : Z := 99.
Definition MAX_SCORE : Z := 999999.
Definition SHIP_RESPAWN_DELAY : Z := 120.
Definition ASTEROID_SPAWN_COUNT : Z := 12.
Definition PROJECTILE_SPEED : Z := 6.
Definition PROJECTILE_LIFETIME : Z := 12.
Definition SCORE_HIT_LARGE : Z := 20.
Definition SCORE_HIT_MEDIUM : Z := 50.
Definition SCORE_HIT_SMALL : Z := 100.
Definition ASTEROID_SPAWN_RADIUS : Z := 40.
Definition MAX_ASTEROIDS : Z := 20.
Definition POINTS_FOR_NEW_LIFE : Z := 5000.
End Constants.
Import Constants.

(** ** Python numeric primitives on floats *)
Module Py.
Open Scope R_scope.

(** [math.floor] *)
Definition floor (r : R) : Z := Int_part r.

(** float [x % m] (Python's modulo takes the sign of [m]) *)
Definition fmod (x m : R) : R := x - m * IZR (floor (x / m)).

(** [round(r)]: to the nearest integer, ties to even *)
Definition round (r : R) : Z :=
  let f := floor r in
  let d := r - IZR f in
  if Rlt_dec d (1 / 2) then f
  else if Rlt_dec (1 / 2) d then (f + 1)%Z
  else if Z.even f then f else (f + 1)%Z.

(** [np.radians] / [math.radians] / [np.deg2rad] *)
Definition radians (deg : R) : R := deg * PI / 180.

(** [np.sqrt(x**2 + y**2)] and [np.linalg.norm] of a 2-vector *)
Definition norm (x y : R) : R := sqrt (x * x + y * y).
End Py.

(** ** The global random generator

    [np.random] is modelled as a stream of draws in [0, 1); an exhausted
    stream yields 0. *)
Module Rand.
Open Scope R_scope.

Definition Rng := list R.
Definition Rand (A : Type) := Rng -> A * Rng.

Definition ret {A} (a : A) : Rand A := fun r => (a, r).
Definition bind {A B} (m : Rand A) (k : A -> Rand B) : Rand B :=
  fun r => let '(a, r') := m r in k a r'.

(** [np.random.random()] *)
Definition random : Rand R :=
  fun r => match r with [] => (0, []) | u :: r' => (u, r') end.

(** [np.random.uniform(lo, hi)] *)
Definition uniform (lo hi : R) : Rand R :=
  bind random (fun u => ret (lo + (hi - lo) * u)).

(** [np.random.randint(lo, hi)]: an integer in [lo, hi) *)
Definition randint (lo hi : Z) : Rand Z :=
  bind random (fun u => ret (lo + Py.floor (IZR (hi - lo) * u))%Z).

(** [np.random.choice(xs)]: a uniformly chosen element *)
Definition choice {A} (d : A) (xs : list A) : Rand A :=
  bind random (fun u =>
    ret (nth (Z.to_nat (Py.floor (INR (List.length xs) * u))) xs d)).
End Rand.

Declare Scope rand_scope.
Notation "x <- m ;; k" := (Rand.bind m (fun x => k))
  (at level 61, m at next level, right associativity) : rand_scope.

(** ** util.py *)
Module Util.
Open Scope R_scope.

Definition wrap_position (position : R * R) : R * R :=
  let '(x, y) := position in
  (* Screen wrapping - width *)
  let x := Py.fmod x (IZR SCREEN_WIDTH) in
  (* the score area at the top is not part of the play area *)
  let y :=
    if Rlt_dec y (IZR TOP_MARGIN) then IZR (SCREEN_HEIGHT - 1)
    else if Rlt_dec (IZR SCREEN_HEIGHT) y then IZR (TOP_MARGIN + 1)
    else y in
  (x, y).
End Util.

(** ** ship.py *)
Module Ship.
Open Scope R_scope.

Record Ship := mkShip {
  x : R; y : R;
  vx : R; vy : R;
  direction : Z;          (* degrees *)
  thrusting : bool;
  lives : Z;
  exploding : Z           (* explosion countdown, 0 = not exploding *)
}.

Definition _THRUST_POWER : R := 0.05.
Definition _EXPLOSION_DURATION : Z := 60.
Definition gun_position : Z * Z := (0, 2)%Z.
(** [self._pixel_map.shape] (also the shape of the random explosion
    pattern) *)
Definition pixel_map_shape : Z * Z := (5, 5)%Z.

Definition __init__ : Ship :=
  mkShip (IZR (SCREEN_WIDTH / 2)) (IZR (SCREEN_HEIGHT / 2)) 0 0 0 false
    INITIAL_LIVES 0.

Definition is_exploding (s : Ship) : bool := (0 <? exploding s)%Z.

Definition set_thrusting (value : bool) (s : Ship) : Ship :=
  mkShip (x s) (y s) (vx s) (vy s) (direction s) value (lives s)
    (exploding s).

Definition update (s : Ship) : Ship :=
  (* don't update position if the ship is exploding *)
  if is_exploding s then s else
  let '(vx', vy') :=
    if thrusting s then
      let theta := Py.radians (IZR (direction s)) in
      (vx s + _THRUST_POWER * sin theta, vy s + - _THRUST_POWER * cos theta)
    else (vx s, vy s) in
  (* Limit speed to a maximum value *)
  let speed := Py.norm vx' vy' in
  let '(vx', vy') :=
    if Rlt_dec (IZR MAX_SPEED) speed then
      let scale := IZR MAX_SPEED / speed in (vx' * scale, vy' * scale)
    else (vx', vy') in
  (* Apply friction *)
  let vx' := vx' * 0.995 in
  let vy' := vy' * 0.995 in
  (* Update position, then handle screen wrapping *)
  let '(x', y') := Util.wrap_position (x s + vx', y s + vy') in
  mkShip x' y' vx' vy' (direction s) (thrusting s) (lives s) (exploding s).

Definition update_explosion (s : Ship) : Ship :=
  let e := if (0 <? exploding s)%Z then (exploding s - 1)%Z else 0%Z in
  mkShip (x s) (y s) (vx s) (vy s) (direction s) (thrusting s) (lives s) e.

Definition reset (s : Ship) : Ship :=
  mkShip (IZR (SCREEN_WIDTH / 2)) (IZR (SCREEN_HEIGHT / 2)) 0 0 0 false
    (lives s) 0.

Definition rotate_right (s : Ship) : Ship :=
  mkShip (x s) (y s) (vx s) (vy s) ((direction s + 5) mod 360)
    (thrusting s) (lives s) (exploding s).

Definition rotate_left (s : Ship) : Ship :=
  mkShip (x s) (y s) (vx s) (vy s) ((direction s - 5) mod 360)
    (thrusting s) (lives s) (exploding s).

Definition handle_collision (s : Ship) : Ship :=
  (* already exploding, ignore further collisions *)
  if (0 <? exploding s)%Z then s else
  let l := (lives s - 1)%Z in
  let l := if (l <? 0)%Z then 0%Z else l in
  (* start the explosion sequence and stop ship's movement *)
  mkShip (x s) (y s) 0 0 (direction s) (thrusting s) l _EXPLOSION_DURATION.

(** Modelled from the spec: [Ship.award_new_life], called by
    [Game._update_score] but not defined in ship.py; the spec's score
    update "awards one life". *)
Definition award_new_life (s : Ship) : Ship :=
  mkShip (x s) (y s) (vx s) (vy s) (direction s) (thrusting s)
    (lives s + 1) (exploding s).
End Ship.

(** ** asteroid.py *)
Module Asteroid.
Open Scope R_scope.
Local Open Scope rand_scope.

Inductive Size := SMALL | MEDIUM | LARGE.

Record Asteroid := mkAsteroid {
  x : R; y : R;
  vx : R; vy : R;
  size : Size;
  color : Z * Z * Z
}.

(** [pixel_map.shape] of [pixmap_small], [pixmap_medium], [pixmap_large] *)
Definition pixel_map_shape (a : Asteroid) : Z * Z :=
  match size a with
  | SMALL => (7, 7)%Z
  | MEDIUM => (9, 9)%Z
  | LARGE => (15, 15)%Z
  end.

Definition points (a : Asteroid) : Z :=
  match size a with
  | LARGE => SCORE_HIT_LARGE
  | MEDIUM => SCORE_HIT_MEDIUM
  | SMALL => SCORE_HIT_SMALL
  end.

Definition velocity (a : Asteroid) : R * R := (vx a, vy a).

Definition initialize_asteroid_speed (sz : Size) : Rand.Rand R :=
  match sz with
  | LARGE => Rand.uniform 0.1 0.15
  | MEDIUM => Rand.uniform 0.15 0.2
  | SMALL => Rand.uniform 0.2 0.3
  end.

(** [Asteroid(x, y, size, color, velocity, speed_multiplier)] *)
Definition __init__ (x0 y0 : R) (sz : Size) (c : Z * Z * Z)
    (v : option (R * R)) (speed_multiplier : R) : Rand.Rand Asteroid :=
  match v with
  | Some (vx0, vy0) =>
      (* If velocity is provided, use it directly *)
      Rand.ret (mkAsteroid x0 y0 vx0 vy0 sz c)
  | None =>
      speed <- initialize_asteroid_speed sz ;;
      let speed := speed * speed_multiplier in
      angle <- Rand.uniform 0 (2 * PI) ;;
      Rand.ret (mkAsteroid x0 y0 (cos angle * speed) (sin angle * speed) sz c)
  end.

Definition update (a : Asteroid) : Asteroid :=
  let '(x', y') := Util.wrap_position (x a + vx a, y a + vy a) in
  mkAsteroid x' y' (vx a) (vy a) (size a) (color a).
End Asteroid.

(** ** projectile.py *)
Module Projectile.
Open Scope R_scope.

Record Projectile := mkProjectile {
  speed : R;
  direction : Z;
  frames_remaining : Z;
  x : R; y : R
}.

Definition __init__ (source : Ship.Ship) : Projectile :=
  let dir := Ship.direction source in
  (* Offset from ship center to gun position *)
  let gun_dx := IZR (fst Ship.gun_position) in
  let gun_dy := IZR (snd Ship.gun_position) in
  let angle_rad := Py.radians (IZR dir) in
  (* Rotate offset by ship's direction *)
  let rotated_dx := gun_dx * cos angle_rad - gun_dy * sin angle_rad in
  let rotated_dy := gun_dx * sin angle_rad + gun_dy * cos angle_rad in
  mkProjectile (IZR PROJECTILE_SPEED) dir PROJECTILE_LIFETIME
    (Ship.x source + rotated_dx) (Ship.y source + rotated_dy).

Definition is_alive (p : Projectile) : bool := (0 <? frames_remaining p)%Z.

Definition position (p : Projectile) : R * R := (x p, y p).

Definition update (p : Projectile) : Projectile :=
  if negb (is_alive p) then p else
  let fr := (frames_remaining p - 1)%Z in
  let angle_rad := Py.radians (IZR (direction p)) in
  let x' := x p + speed p * sin angle_rad in
  let y' := y p - speed p * cos angle_rad in
  let '(x', y') := Util.wrap_position (x', y') in
  mkProjectile (speed p) (direction p) fr x' y'.
End Projectile.

(** ** game.py *)
Module Game.
Open Scope Z_scope.
Import Asteroid.

Inductive Key := ANY | LEFT | RIGHT | UP | FIRE.

Definition Key_eqb (k1 k2 : Key) : bool :=
  match k1, k2 with
  | ANY, ANY | LEFT, LEFT | RIGHT, RIGHT | UP, UP | FIRE, FIRE => true
  | _, _ => false
  end.

(** The exceptions [Game.update] can raise: [FrameBuffer.draw_lives] and
    [FrameBuffer.draw_score] raise [ValueError] on out-of-range values;
    [FrameBuffer.draw_ship] raises [AttributeError]. *)
Inductive PyExn := ValueError | AttributeError.

Record Game := mkGame {
  score : Z;
  ship : Ship.Ship;
  show_splash_screen : bool;
  respawn_countdown : Z;
  level : Z;
  next_bonus_life : Z;
  asteroids : list Asteroid;
  projectiles : list Projectile.Projectile;
  rng : Rand.Rng            (* the process-wide [np.random] state *)
}.

Definition with_score v g := mkGame v (ship g) (show_splash_screen g)
  (respawn_countdown g) (level g) (next_bonus_life g) (asteroids g)
  (projectiles g) (rng g).
Definition with_ship v g := mkGame (score g) v (show_splash_screen g)
  (respawn_countdown g) (level g) (next_bonus_life g) (asteroids g)
  (projectiles g) (rng g).
Definition with_show_splash_screen v g := mkGame (score g) (ship g) v
  (respawn_countdown g) (level g) (next_bonus_life g) (asteroids g)
  (projectiles g) (rng g).
Definition with_respawn_countdown v g := mkGame (score g) (ship g)
  (show_splash_screen g) v (level g) (next_bonus_life g) (asteroids g)
  (projectiles g) (rng g).
Definition with_level v g := mkGame (score g) (ship g)
  (show_splash_screen g) (respawn_countdown g) v (next_bonus_life g)
  (asteroids g) (projectiles g) (rng g).
Definition with_next_bonus_life v g := mkGame (score g) (ship g)
  (show_splash_screen g) (respawn_countdown g) (level g) v (asteroids g)
  (projectiles g) (rng g).
Definition with_asteroids v g := mkGame (score g) (ship g)
  (show_splash_screen g) (respawn_countdown g) (level g)
  (next_bonus_life g) v (projectiles g) (rng g).
Definition with_projectiles v g := mkGame (score g) (ship g)
  (show_splash_screen g) (respawn_countdown g) (level g)
  (next_bonus_life g) (asteroids g) v (rng g).
Definition with_rng v g := mkGame (score g) (ship g)
  (show_splash_screen g) (respawn_countdown g) (level g)
  (next_bonus_life g) (asteroids g) (projectiles g) v.
Definition map_ship (f : Ship.Ship -> Ship.Ship) g := with_ship (f (ship g)) g.

(** *** The state/exception monad of the [Game] methods *)
Definition M (A : Type) := Game -> Game * (PyExn + A).

Definition ret {A} (a : A) : M A := fun g => (g, inr a).
Definition bind {A B} (m : M A) (k : A -> M B) : M B :=
  fun g => let '(g', r) := m g in
    match r with inl e => (g', inl e) | inr a => k a g' end.
Definition raise {A} (e : PyExn) : M A := fun g => (g, inl e).
Definition get : M Game := fun g => (g, inr g).
Definition modify (f : Game -> Game) : M unit := fun g => (f g, inr tt).
(** run a draw of the global generator *)
Definition rand {A} (m : Rand.Rand A) : M A :=
  fun g => let '(a, r') := m (rng g) in (with_rng r' g, inr a).

Declare Scope game_scope.
Notation "x <- m ;; k" := (bind m (fun x => k))
  (at level 61, m at next level, right associativity) : game_scope.
Notation "m ;; k" := (bind m (fun _ => k))
  (at level 61, right associativity) : game_scope.
Local Open Scope game_scope.

Definition _respawn_delay_active (g : Game) : bool := 0 <? respawn_countdown g.

(** *** Bounding boxes *)
Definition _get_bounding_box (x0 y0 : R) (shape : Z * Z) (shrink : R)
    : Z * Z * Z * Z :=
  let '(h, w) := shape in
  let half_w := (IZR w * shrink / 2)%R in
  let half_h := (IZR h * shrink / 2)%R in
  (Py.round (x0 - half_w), Py.round (y0 - half_h),
   Py.round (x0 + half_w), Py.round (y0 + half_h)).

Definition _bounding_box_overlap (box1 box2 : Z * Z * Z * Z) : bool :=
  let '(a0, a1, a2, a3) := box1 in
  let '(b0, b1, b2, b3) := box2 in
  negb ((a2 <? b0) || (b2 <? a0) || (a3 <? b1) || (b3 <? a1)).

Definition _pixel_in_bounding_box (x0 y0 : Z) (box : Z * Z * Z * Z) : bool :=
  let '(b0, b1, b2, b3) := box in
  (b0 <=? x0) && (x0 <? b2) && (b1 <=? y0) && (y0 <? b3).

(** the first asteroid (index and object) whose box holds the projectile *)
Fixpoint first_hit (px py : Z) (l : list Asteroid) (i : nat)
    : option (nat * Asteroid) :=
  match l with
  | [] => None
  | a :: rest =>
      let asteroid_box := _get_bounding_box (x a) (y a) (pixel_map_shape a) 0.9 in
      if _pixel_in_bounding_box px py asteroid_box then Some (i, a)
      else first_hit px py rest (S i)
  end.

Definition _check_projectile_collision (p : Projectile.Projectile)
    (l : list Asteroid) : option (nat * Asteroid) :=
  first_hit (Py.round (Projectile.x p)) (Py.round (Projectile.y p)) l 0.

Definition _check_ship_collision (g : Game) : bool :=
  let s := ship g in
  let ship_box := _get_bounding_box (Ship.x s) (Ship.y s) Ship.pixel_map_shape 0.8 in
  existsb (fun a =>
    _bounding_box_overlap ship_box
      (_get_bounding_box (x a) (y a) (pixel_map_shape a) 0.8))
    (asteroids g).

(** [_remove_items]: the entities are compared by identity, so removing
    the marked objects is removing the marked positions of the list *)
Definition _remove_items {T} (collection : list T) (items : list nat) : list T :=
  map snd (filter (fun '(i, _) => negb (existsb (Nat.eqb i) items))
    (combine (seq 0 (List.length collection)) collection)).

(** *** Score and asteroid splitting *)
Definition _update_score (points : Z) (g : Game) : Game :=
  if score g =? MAX_SCORE then g else
  (* award points *)
  let g := with_score (score g + points) g in
  let g :=
    if (next_bonus_life g <=? score g) && (Ship.lives (ship g) <? MAX_LIVES)
    then with_next_bonus_life (next_bonus_life g + POINTS_FOR_NEW_LIFE)
           (map_ship Ship.award_new_life g)
    else g in
  (* cap score *)
  if MAX_SCORE <? score g then with_score MAX_SCORE g else g.

Section Split.
Local Open Scope R_scope.
Local Open Scope rand_scope.

Definition permute_velocity (_velocity : R * R) (angle_deg : Z) (sz : Size)
    : Rand.Rand (R * R) :=
  let '(vx0, vy0) := _velocity in
  let angle_rad := Py.radians (IZR angle_deg) in
  (* rotation_matrix @ v *)
  let rx := cos angle_rad * vx0 + - sin angle_rad * vy0 in
  let ry := sin angle_rad * vx0 + cos angle_rad * vy0 in
  let norm := Py.norm rx ry in
  let '(rx, ry, norm) :=
    if Req_dec_T norm 0 then (1, 0, 1) else (rx, ry, norm) in
  speed <- initialize_asteroid_speed sz ;;
  Rand.ret (rx / norm * speed, ry / norm * speed).

(** [for angle in angles: ...append(Asteroid(..., velocity=velocity))] *)
Fixpoint children (a : Asteroid) (sz : Size) (angles : list Z)
    : Rand.Rand (list Asteroid) :=
  match angles with
  | [] => Rand.ret []
  | angle :: rest =>
      v <- permute_velocity (velocity a) angle sz ;;
      (* speed_multiplier: the default 1.0 *)
      child <- Asteroid.__init__ (x a) (y a) sz (color a) (Some v) 1.0 ;;
      others <- children a sz rest ;;
      Rand.ret (child :: others)
  end.

(** [_handle_asteroid_hit] for a game holding [count] asteroids *)
Definition handle_asteroid_hit (count : nat) (a : Asteroid)
    : Rand.Rand (list Asteroid) :=
  angles <- (if negb (Z.of_nat count >=? MAX_ASTEROIDS)%Z
             then Rand.ret [20; -20]%Z
             else c <- Rand.choice 20%Z [20; -20]%Z ;; Rand.ret [c]) ;;
  match size a with
  | LARGE => children a MEDIUM angles
  | MEDIUM => children a SMALL angles
  | SMALL => Rand.ret []
  end.
End Split.

Definition _handle_asteroid_hit (a : Asteroid) : M (list Asteroid) :=
  g <- get ;;
  rand (handle_asteroid_hit (List.length (asteroids g)) a).

(** *** Per-frame updates *)

(** the loop of [_update_projectiles]: each projectile is advanced, then
    kept, or marked for removal together with the asteroid it hit; it
    returns the kept projectiles, the marked asteroids and the new ones *)
Fixpoint projectiles_loop (ps : list Projectile.Projectile)
    : M (list Projectile.Projectile * list nat * list Asteroid) :=
  match ps with
  | [] => ret ([], [], [])
  | p :: rest =>
      let p := Projectile.update p in
      step <-
        (if Projectile.is_alive p then
           (* draw_projectile *)
           g <- get ;;
           match _check_projectile_collision p (asteroids g) with
           | Some (i, hit_asteroid) =>
               modify (_update_score (points hit_asteroid)) ;;
               kids <- _handle_asteroid_hit hit_asteroid ;;
               ret (@None Projectile.Projectile, [i], kids)
           | None => ret (Some p, [], [])
           end
         else ret (None, [], [])) ;;
      let '(kept, marked, kids) := step in
      r <- projectiles_loop rest ;;
      let '(kept', marked', kids') := r in
      ret (match kept with Some q => q :: kept' | None => kept' end,
           marked ++ marked', kids ++ kids')
  end.

Definition _update_projectiles : M unit :=
  g <- get ;;
  r <- projectiles_loop (projectiles g) ;;
  let '(kept, asteroids_to_remove, new_asteroids) := r in
  modify (fun g =>
    with_asteroids (_remove_items (asteroids g) asteroids_to_remove ++ new_asteroids)
      (with_projectiles kept g)).

(** [for asteroid in self._asteroids: asteroid.update(); draw_asteroid] *)
Definition _update_asteroids : M unit :=
  modify (fun g => with_asteroids (map Asteroid.update (asteroids g)) g).

Definition _start_respawn_delay : M unit :=
  modify (with_respawn_countdown SHIP_RESPAWN_DELAY).

Definition _update_respawn_delay : M unit :=
  modify (fun g =>
    if 0 <? respawn_countdown g
    then with_respawn_countdown (respawn_countdown g - 1) g else g).

(** [FrameBuffer.draw_ship(ship)]: its first statement,
    [theta = np.radians(ship.angle)], reads an attribute that [Ship] does
    not define, so every call raises [AttributeError] before any pixel is
    set or any random number is drawn. *)
Definition draw_ship (s : Ship.Ship) : M unit := raise AttributeError.

Definition _update_ship : M unit :=
  g <- get ;;
  if Ship.is_exploding (ship g) then
    (* ship is exploding, draw the explosion animation *)
    draw_ship (ship g) ;;
    modify (map_ship Ship.update_explosion) ;;
    g <- get ;;
    if negb (Ship.is_exploding (ship g)) && (0 <? Ship.lives (ship g)) then
      _start_respawn_delay ;; modify (map_ship Ship.reset)
    else ret tt
  else if _respawn_delay_active g then _update_respawn_delay
  else if negb (Ship.lives (ship g) =? 0) then
    modify (map_ship Ship.update) ;;
    g <- get ;;
    (if _check_ship_collision g then modify (map_ship Ship.handle_collision)
     else ret tt) ;;
    g <- get ;;
    draw_ship (ship g)
  else ret tt.

(** *** Wave spawn *)
Inductive Edge := edge_top | edge_bottom | edge_left | edge_right.

Section Spawn.
Local Open Scope R_scope.
Local Open Scope rand_scope.

(** one iteration of the loop of [_spawn_asteroids] *)
Definition spawn_one : Rand.Rand Asteroid :=
  let edge_margin := ASTEROID_SPAWN_RADIUS in
  edge <- Rand.choice edge_top [edge_top; edge_bottom; edge_left; edge_right] ;;
  xy <- match edge with
        | edge_top =>
            x0 <- Rand.randint 0 SCREEN_WIDTH ;;
            y0 <- Rand.randint TOP_MARGIN (edge_margin + TOP_MARGIN) ;;
            Rand.ret (x0, y0)
        | edge_bottom =>
            x0 <- Rand.randint 0 SCREEN_WIDTH ;;
            y0 <- Rand.randint (SCREEN_HEIGHT - edge_margin) SCREEN_HEIGHT ;;
            Rand.ret (x0, y0)
        | edge_left =>
            x0 <- Rand.randint 0 edge_margin ;;
            y0 <- Rand.randint TOP_MARGIN SCREEN_HEIGHT ;;
            Rand.ret (x0, y0)
        | edge_right =>
            x0 <- Rand.randint (SCREEN_WIDTH - edge_margin) SCREEN_WIDTH ;;
            y0 <- Rand.randint TOP_MARGIN SCREEN_HEIGHT ;;
            Rand.ret (x0, y0)
        end ;;
  (* np.random.choice([LARGE, MEDIUM, SMALL], p=[0.6, 0.3, 0.1]) *)
  u <- Rand.random ;;
  let sz := if Rlt_dec u 0.6 then LARGE
            else if Rlt_dec u 0.9 then MEDIUM else SMALL in
  (* tuple(np.random.randint(64, 192, size=3)) *)
  c0 <- Rand.randint 64 192 ;;
  c1 <- Rand.randint 64 192 ;;
  c2 <- Rand.randint 64 192 ;;
  (* speed_multiplier: the default 1.0 *)
  Asteroid.__init__ (IZR (fst xy)) (IZR (snd xy)) sz (c0, c1, c2) None 1.0.

Fixpoint spawn_n (n : nat) : Rand.Rand (list Asteroid) :=
  match n with
  | O => Rand.ret []
  | S n' => a <- spawn_one ;; rest <- spawn_n n' ;; Rand.ret (a :: rest)
  end.
End Spawn.

Definition _spawn_asteroids (count : Z) : M unit :=
  l <- rand (spawn_n (Z.to_nat count)) ;;
  modify (fun g => with_asteroids (asteroids g ++ l) g).

(** *** Frame-buffer calls as seen by the game state

    [FrameBuffer.draw_lives] and [FrameBuffer.draw_score] raise
    [ValueError] outside their ranges and otherwise only set pixels. *)
Definition draw_lives (lives : Z) : M unit :=
  if (0 <=? lives) && (lives <=? MAX_LIVES) then ret tt else raise ValueError.

Definition draw_score (s : Z) : M unit :=
  if (0 <=? s) && (s <=? MAX_SCORE) then ret tt else raise ValueError.

(** *** [Game.update] and [Game.handle_key] *)
Definition update : M unit :=
  (* self._frame_buffer.clear() *)
  g <- get ;;
  if show_splash_screen g then ret tt  (* draw_splash_screen *)
  else
    _update_projectiles ;;
    _update_asteroids ;;
    _update_ship ;;
    g <- get ;;
    draw_lives (Ship.lives (ship g)) ;;
    draw_score (score g) ;;
    if Ship.lives (ship g) =? 0 then ret tt  (* draw_game_over *)
    else match asteroids g with
         | [] => modify (fun g => with_level (level g + 1) g) ;;
                 _spawn_asteroids ASTEROID_SPAWN_COUNT
         | _ :: _ => ret tt
         end.

Definition handle_key (key : Key) (pressed : bool) (g : Game) : Game :=
  (* if the splash screen is shown, any key press will hide it *)
  if show_splash_screen g && pressed then with_show_splash_screen false g
  else if Key_eqb key LEFT && pressed then map_ship Ship.rotate_left g
  else if Key_eqb key RIGHT && pressed then map_ship Ship.rotate_right g
  else if Key_eqb key UP then map_ship (Ship.set_thrusting pressed) g
  else if Key_eqb key FIRE && pressed && negb (_respawn_delay_active g)
          && negb (Ship.is_exploding (ship g))
  then with_projectiles (projectiles g ++ [Projectile.__init__ (ship g)]) g
  else g.

(** [Game()]: the frame buffer is left out (it holds only pixels); the
    asteroids are spawned from the global generator [r] *)
Definition __init__ (r : Rand.Rng) : Game :=
  let g := mkGame 0 Ship.__init__ true 0 1 POINTS_FOR_NEW_LIFE [] [] r in
  let g := fst (_spawn_asteroids ASTEROID_SPAWN_COUNT g) in
  (* self._projectiles = [] *)
  with_projectiles [] g.
End Game.

(** ** frame_buffer.py (score and lives drawing) *)
Module FrameBuffer.
Open Scope Z_scope.

Definition Color := (Z * Z * Z)%type.

(** the [(SCREEN_HEIGHT, SCREEN_WIDTH, 3)] uint8 array, by (row, column) *)
Definition Pixels := Z -> Z -> Color.

(** Modelled from the spec: the bitmap fonts [Font] and [ScoreFont]
    (font.py, imported by frame_buffer.py, is not in the sources); the
    spec's "small fixed bitmap font": each character has a fixed bitmap,
    given by its rows. *)
Definition Glyph := list (list Z).
Record Font := mkFont { get_character : ascii -> Glyph }.

Record FrameBuffer := mkFrameBuffer {
  frame_buffer : Pixels;
  _text_font : Font;
  _score_font : Font
}.

Definition width : Z := SCREEN_WIDTH.
Definition height : Z := SCREEN_HEIGHT.

(** [pixel_map.shape] *)
Definition shape (pm : Glyph) : Z * Z :=
  (Z.of_nat (List.length pm),
   match pm with [] => 0 | row :: _ => Z.of_nat (List.length row) end).

(** [np.nonzero(pixel_map)]: (row, column) pairs in row-major order *)
Definition nonzero (pm : Glyph) : list (Z * Z) :=
  flat_map (fun '(r, row) =>
    map (fun '(c, _) => (r, c))
      (filter (fun '(_, v) => negb (v =? 0))
         (combine (map Z.of_nat (seq 0 (List.length row))) row)))
    (combine (map Z.of_nat (seq 0 (List.length pm))) pm).

Definition set_pixel (px : Pixels) (r c : Z) (color : Color) : Pixels :=
  fun r' c' => if (r' =? r) && (c' =? c) then color else px r' c'.

(** [self._frame_buffer[abs_ys[mask], abs_xs[mask]] = color] *)
Definition blit (px : Pixels) (pts : list (Z * Z)) (x_offset y_offset : Z)
    (color : Color) : Pixels :=
  fold_left (fun px '(r, c) =>
    let abs_x := c + x_offset in
    let abs_y := r + y_offset in
    if (0 <=? abs_x) && (abs_x <? width) && (0 <=? abs_y) && (abs_y <? height)
    then set_pixel px abs_y abs_x color else px) pts px.

(** the loop of [draw_text_right_aligned] over the reversed text *)
Fixpoint draw_chars (font : Font) (color : Color) (y_offset : Z)
    (text : list ascii) (x_offset : Z) (px : Pixels) : Pixels :=
  match text with
  | [] => px
  | ch :: rest =>
      let pixel_map := get_character font ch in
      let '(_, w) := shape pixel_map in
      (* move the x_offset left by the width of the character *)
      let x_offset := x_offset - w in
      let px := blit px (nonzero pixel_map) x_offset y_offset color in
      (* Add some spacing between characters *)
      draw_chars font color y_offset rest (x_offset - 2) px
  end.

Definition draw_text_right_aligned (fb : FrameBuffer) (x y : Z)
    (text : string) (font : Font) (color : Color) : FrameBuffer :=
  mkFrameBuffer
    (draw_chars font color y (rev (list_ascii_of_string text)) x (frame_buffer fb))
    (_text_font fb) (_score_font fb).

(** [sum(font.get_character(char).shape[1] for char in text)
    + 2 * (len(text) - 1)] *)
Definition text_width (font : Font) (text : string) : Z :=
  fold_right (fun ch acc => snd (shape (get_character font ch)) + acc) 0
    (list_ascii_of_string text)
  + 2 * (Z.of_nat (String.length text) - 1).

Definition draw_text_centered (fb : FrameBuffer) (x y : Z)
    (text : string) (font : Font) (color : Color) : FrameBuffer :=
  let x_offset := x + text_width font text / 2 in
  draw_text_right_aligned fb x_offset y text font color.

(** [str(n)] for a Python int *)
Fixpoint digits (fuel : nat) (n : Z) (acc : list ascii) : list ascii :=
  match fuel with
  | O => acc
  | S fuel' =>
      let acc := ascii_of_nat (48 + Z.to_nat (n mod 10)) :: acc in
      if n <? 10 then acc else digits fuel' (n / 10) acc
  end.

Definition str (n : Z) : string :=
  string_of_list_ascii
    (if n <? 0 then "-"%char :: digits (S (Z.to_nat (Z.log2 (- n)))) (- n) []
     else digits (S (Z.to_nat (Z.log2 n))) n []).

Definition draw_score (fb : FrameBuffer) (score : Z) (color : Color)
    : Game.PyExn + FrameBuffer :=
  (* allow scores up to 6 digits *)
  if negb ((0 <=? score) && (score <=? MAX_SCORE)) then inl Game.ValueError
  else inr (draw_text_right_aligned fb (width / 2) SCORE_TOP_MARGIN
              (str score) (_score_font fb) color).

Definition draw_lives (fb : FrameBuffer) (lives : Z) (color : Color)
    : Game.PyExn + FrameBuffer :=
  if negb ((0 <=? lives) && (lives <=? MAX_LIVES)) then inl Game.ValueError
  else inr (draw_text_right_aligned fb (width - LIVES_RIGHT_MARGIN)
              SCORE_TOP_MARGIN (str lives) (_score_font fb) color).
End FrameBuffer.

(** ** Definitions that follow the spec's words

    These are compared with the code's definitions above. *)
Module SpecSide.
Open Scope R_scope.
Import Asteroid.

(** "while score >= next threshold and lives < MAX_LIVES, award one life
    and advance the threshold" *)
Fixpoint bonus_loop (fuel : nat) (g : Game.Game) : Game.Game :=
  match fuel with
  | O => g
  | S fuel' =>
      if ((Game.next_bonus_life g <=? Game.score g)
          && (Ship.lives (Game.ship g) <? MAX_LIVES))%Z
      then bonus_loop fuel'
             (Game.with_next_bonus_life
                (Game.next_bonus_life g + POINTS_FOR_NEW_LIFE)%Z
                (Game.map_ship Ship.award_new_life g))
      else g
  end.

(** the score update with the bonus-life loop of the spec; the loop runs
    at most [MAX_LIVES - lives] times since each round awards a life *)
Definition update_score_loop (points : Z) (g : Game.Game) : Game.Game :=
  if (Game.score g =? MAX_SCORE)%Z then g else
  let g := Game.with_score (Game.score g + points)%Z g in
  let g := bonus_loop (Z.to_nat (MAX_LIVES - Ship.lives (Game.ship g))) g in
  if (MAX_SCORE <? Game.score g)%Z then Game.with_score MAX_SCORE g else g.

(** "the parent's velocity vector rotated by [deg] degrees" *)
Definition rotate (deg : R) (v : R * R) : R * R :=
  let th := deg * PI / 180 in
  (cos th * fst v - sin th * snd v, sin th * fst v + cos th * snd v).

(** "unit-normalized, then rescaled to [speed]" *)
Definition rescale (speed : R) (v : R * R) : R * R :=
  let n := sqrt (fst v * fst v + snd v * snd v) in
  (fst v / n * speed, snd v / n * speed).

(** a split child: at the parent's position, of the next smaller size *)
Definition split_child (a : Asteroid) (sz : Size) (deg speed : R) : Asteroid :=
  let v := rescale speed (rotate deg (velocity a)) in
  mkAsteroid (x a) (y a) (fst v) (snd v) sz (color a).

Definition child_size (sz : Size) : option Size :=
  match sz with LARGE => Some MEDIUM | MEDIUM => Some SMALL | SMALL => None end.

(** the size-dependent speed range [lo, hi) *)
Definition speed_range (sz : Size) : R * R :=
  match sz with
  | LARGE => (0.1, 0.15)
  | MEDIUM => (0.15, 0.2)
  | SMALL => (0.2, 0.3)
  end.

Definition speed_of_draw (sz : Size) (u : R) : R :=
  fst (speed_range sz) + (snd (speed_range sz) - fst (speed_range sz)) * u.

Definition magnitude (vx vy : R) : R := sqrt (vx * vx + vy * vy).
(** a decimal digit character *)
Definition is_digit (c : ascii) : bool :=
  ((48 <=? nat_of_ascii c) && (nat_of_ascii c <=? 57))%nat.

(** the number a string of decimal digits denotes, read left to right *)
Definition digit_step (acc : Z) (c : ascii) : Z :=
  (acc * 10 + (Z.of_nat (nat_of_ascii c) - 48))%Z.

Definition decimal_value (l : list ascii) : Z := fold_left digit_step l 0%Z.
End SpecSide.

(** ** Concrete states used by the witnesses and counterexamples *)
Module Scenarios.
Open Scope R_scope.

(** a ship after game over: no lives, not exploding *)
Definition ship_over : Ship.Ship := Ship.mkShip 96 80 0 0 0 false 0 0.

Definition rock : Asteroid.Asteroid :=
  Asteroid.mkAsteroid 10 50 1 0 Asteroid.LARGE (128, 128, 128)%Z.

(** splash dismissed, no lives left, one asteroid, no projectile *)
Definition game_over_state : Game.Game :=
  Game.mkGame 0 ship_over false 0 1 5000 [rock] [] [].

(** a score two bonus thresholds past the next one (the threshold lags
    behind after lives were at [MAX_LIVES] and then lost) *)
Definition game_bonus : Game.Game :=
  Game.mkGame 10000 (Ship.mkShip 96 80 0 0 0 false 50 0) false 0 3 5000
    [] [] [].

(** an asteroid one half-step above the bottom edge, moving down *)
Definition rock_bottom : Asteroid.Asteroid :=
  Asteroid.mkAsteroid 10 159.5 0 0.5 Asteroid.LARGE (128, 128, 128)%Z.

(** one asteroid on screen and two draws left in the generator *)
Definition game_hit : Game.Game :=
  Game.mkGame 0 ship_over false 0 1 5000 [rock] [] [0.5; 0.25].
End Scenarios.


(** the fields of a game built by the [with_*] updates *)
Ltac game_fields :=
  cbn [fst snd Game.score Game.ship Game.show_splash_screen
       Game.respawn_countdown Game.level Game.next_bonus_life Game.asteroids
       Game.projectiles Game.rng Game.with_score Game.with_ship
       Game.with_show_splash_screen Game.with_respawn_countdown Game.with_level
       Game.with_next_bonus_life Game.with_asteroids Game.with_projectiles
       Game.with_rng Game.map_ship].


(** a computation that does not raise and whose result satisfies [P] *)
Definition returns {A} (P : A -> Prop) (m : Game.M A) : Prop :=
  forall g, exists a, snd (m g) = inr a /\ P a.

(** a stream of generator draws, each in [0, 1) *)
Definition unit_draws (r : Rand.Rng) : Prop := Forall (fun u => (0 <= u < 1)%R) r.

(** a random computation that, run on draws in [0, 1), returns a value
    satisfying [P] and leaves draws in [0, 1) *)
Definition rgood {A} (P : A -> Prop) (m : Rand.Rand A) : Prop :=
  forall r, unit_draws r -> P (fst (m r)) /\ unit_draws (snd (m r)).

(** a spawned asteroid: inside the play area (x in [0, SCREEN_WIDTH),
    y in [TOP_MARGIN, SCREEN_HEIGHT)), moving at a speed within the
    range [initialize_asteroid_speed] draws from for its size *)
Definition spawn_ok (a : Asteroid.Asteroid) : Prop :=
  (0 <= Asteroid.x a < IZR SCREEN_WIDTH /\
   IZR TOP_MARGIN <= Asteroid.y a < IZR SCREEN_HEIGHT /\
   fst (SpecSide.speed_range (Asteroid.size a))
   <= Py.norm (Asteroid.vx a) (Asteroid.vy a)
   < snd (SpecSide.speed_range (Asteroid.size a)))%R.

(** a glyph whose rows all have the width [shape] reports *)
Definition rectangular (pm : FrameBuffer.Glyph) : Prop :=
  Forall (fun row => Z.of_nat (List.length row) = snd (FrameBuffer.shape pm)) pm.

(** the width [text_width] computes, over a list of characters *)
Definition chars_width (font : FrameBuffer.Font) (l : list ascii) : Z :=
  fold_right (fun ch acc => snd (FrameBuffer.shape (FrameBuffer.get_character font ch)) + acc)
    0 l + 2 * (Z.of_nat (List.length l) - 1).

(** * Theorems *)

(** ** Screen wrapping *)
Section Wrap.
Open Scope R_scope.

Lemma fmod_range (x m : R) : 0 < m -> 0 <= Py.fmod x m < m.
Proof.
  intros Hm. unfold Py.fmod, Py.floor.
  destruct (base_Int_part (x / m)) as [H1 H2].
  set (k := IZR (Int_part (x / m))) in *.
  set (r := x / m) in *.
  assert (Hx : x = m * r) by (unfold r; field; lra).
  rewrite Hx. split; nra.
Qed.

Lemma fmod_small (x m : R) : 0 < m -> 0 <= x < m -> Py.fmod x m = x.
Proof.
  intros Hm Hx. unfold Py.fmod, Py.floor.
  assert (H0 : 0%Z = Int_part (x / m)).
  { apply Int_part_spec. split.
    - apply Rlt_le_trans with 0; [| lra].
      assert (x / m < 1) by (apply Rmult_lt_reg_r with m; [lra|];
        unfold Rdiv; rewrite Rmult_assoc, Rinv_l; lra).
      lra.
    - unfold Rdiv. apply Rmult_le_pos; [lra | left; apply Rinv_0_lt_compat; lra]. }
  rewrite <- H0. simpl. ring.
Qed.

Lemma wrap_position_range (p : R * R) :
  let '(x, y) := Util.wrap_position p in
  0 <= x < IZR SCREEN_WIDTH /\ IZR TOP_MARGIN <= y <= IZR SCREEN_HEIGHT.
Proof.
  destruct p as [x y]. unfold Util.wrap_position.
  split.
  - apply fmod_range. unfold SCREEN_WIDTH; lra.
  - unfold TOP_MARGIN, SCREEN_HEIGHT in *.
    destruct (Rlt_dec y (IZR 15)); [simpl; lra|].
    destruct (Rlt_dec (IZR 160) y); simpl; lra.
Qed.
End Wrap.

(** the destructuring of [Ship.update], with the screen range of the
    wrapped position *)
Ltac split_update :=
  repeat match goal with
  | |- context [Util.wrap_position ?p] =>
      let H := fresh "Hw" in
      pose proof (wrap_position_range p) as H;
      destruct (Util.wrap_position p)
  | |- context [match ?p with pair _ _ => _ end] => destruct p
  end.

(** C10: [wrap_position] is idempotent: for every real input position,
    wrapping twice gives the same result as wrapping once. *)
Theorem wrap_position_idempotent (p : R * R) :
  Util.wrap_position (Util.wrap_position p) = Util.wrap_position p.
Proof.
  destruct p as [x y].
  pose proof (wrap_position_range (x, y)) as H.
  destruct (Util.wrap_position (x, y)) as [x' y'].
  destruct H as [Hx Hy].
  unfold Util.wrap_position.
  rewrite fmod_small by (unfold SCREEN_WIDTH in *; lra).
  unfold TOP_MARGIN, SCREEN_HEIGHT in *.
  destruct (Rlt_dec y' (IZR 15)); [lra|].
  destruct (Rlt_dec (IZR 160) y'); [lra|]. reflexivity.
Qed.

(** C5 (failing input): the asteroid at (10, 159.5) moving down at 0.5
    pixel per frame ends its [update()] at y = SCREEN_HEIGHT = 160, which is
    not inside the screen's rows [0, SCREEN_HEIGHT): [wrap_position] only
    wraps when [y > SCREEN_HEIGHT]. *)
Theorem asteroid_update_reaches_screen_height :
  Asteroid.y (Asteroid.update Scenarios.rock_bottom) = IZR SCREEN_HEIGHT.
Proof.
  unfold Asteroid.update, Util.wrap_position, Scenarios.rock_bottom; simpl.
  replace (159.5 + 0.5)%R with 160%R by lra.
  unfold TOP_MARGIN, SCREEN_HEIGHT.
  destruct (Rlt_dec 160 (IZR 15)); [lra|].
  destruct (Rlt_dec (IZR 160) 160); [lra|]. reflexivity.
Qed.

(** ** Ship collisions *)

(** C6: a collision of a ship that is not exploding takes one life (floored
    at 0), stops the ship and starts the fixed-length explosion countdown;
    a collision of an exploding ship changes nothing. *)
Theorem handle_collision_spec (s : Ship.Ship) :
  (Ship.is_exploding s = false ->
     let s' := Ship.handle_collision s in
     Ship.lives s' = Z.max 0 (Ship.lives s - 1) /\
     Ship.vx s' = 0%R /\ Ship.vy s' = 0%R /\
     Ship.exploding s' = Ship._EXPLOSION_DURATION /\
     Ship.is_exploding s' = true) /\
  (Ship.is_exploding s = true -> Ship.handle_collision s = s).
Proof.
  unfold Ship.is_exploding, Ship.handle_collision. split; intros H.
  - rewrite H. simpl. repeat split; try reflexivity.
    destruct (Z.ltb_spec (Ship.lives s - 1) 0); lia.
  - rewrite H. reflexivity.
Qed.

(** ** Firing *)

(** C9: with the splash dismissed, no lives left, the ship not exploding and
    no respawn countdown, pressing FIRE still appends a projectile: firing
    is gated on the respawn delay and the explosion only. *)
Theorem fire_after_game_over (g : Game.Game) :
  Game.show_splash_screen g = false ->
  Ship.lives (Game.ship g) = 0%Z ->
  Ship.is_exploding (Game.ship g) = false ->
  Game.respawn_countdown g = 0%Z ->
  Game.projectiles (Game.handle_key Game.FIRE true g)
  = Game.projectiles g ++ [Projectile.__init__ (Game.ship g)].
Proof.
  intros Hs _ He Hr. unfold Game.handle_key, Game._respawn_delay_active.
  rewrite Hs, Hr, He. reflexivity.
Qed.

Lemma fire_after_game_over_witness :
  Game.projectiles (Game.handle_key Game.FIRE true Scenarios.game_over_state)
  = [Projectile.__init__ Scenarios.ship_over].
Proof.
  apply (fire_after_game_over Scenarios.game_over_state);
    reflexivity.
Defined.

(** ** Score *)

Lemma update_score_score (points : Z) (g : Game.Game) :
  Game.score (Game._update_score points g)
  = if (Game.score g =? MAX_SCORE)%Z then Game.score g
    else Z.min (Game.score g + points) MAX_SCORE.
Proof.
  unfold Game._update_score.
  destruct (Game.score g =? MAX_SCORE)%Z; [reflexivity|].
  destruct (_ && _); simpl;
    destruct (Z.ltb_spec MAX_SCORE (Game.score g + points)); simpl; lia.
Qed.

Lemma update_score_at_max (points : Z) (g : Game.Game) :
  Game.score g = MAX_SCORE -> Game._update_score points g = g.
Proof.
  intros H. unfold Game._update_score. rewrite H, Z.eqb_refl. reflexivity.
Qed.

Lemma points_nonneg (a : Asteroid.Asteroid) : (0 <= Asteroid.points a)%Z.
Proof. unfold Asteroid.points; destruct (Asteroid.size a); discriminate. Qed.

(** C4: from a score in [0, MAX_SCORE], any sequence of point awards for
    asteroid hits keeps the score in [0, MAX_SCORE]; once the score is
    MAX_SCORE, every further award leaves the game unchanged. *)
Theorem score_saturates (g : Game.Game) (hits : list Asteroid.Asteroid) :
  (0 <= Game.score g <= MAX_SCORE)%Z ->
  let g' := fold_left (fun g a => Game._update_score (Asteroid.points a) g)
              hits g in
  (0 <= Game.score g' <= MAX_SCORE)%Z /\
  (Game.score g = MAX_SCORE -> g' = g).
Proof.
  revert g. induction hits as [|a hits IH]; intros g Hg; simpl.
  - split; [exact Hg | reflexivity].
  - assert (Hg' : (0 <= Game.score (Game._update_score (Asteroid.points a) g)
                     <= MAX_SCORE)%Z).
    { rewrite update_score_score. pose proof (points_nonneg a).
      destruct (Z.eqb_spec (Game.score g) MAX_SCORE); lia. }
    destruct (IH _ Hg') as [H1 H2]. split; [exact H1|].
    intros Hmax. rewrite (update_score_at_max _ _ Hmax) in *. apply H2, Hmax.
Qed.

Lemma score_saturates_witness :
  let g' := fold_left (fun g a => Game._update_score (Asteroid.points a) g)
              [Scenarios.rock; Scenarios.rock] Scenarios.game_bonus in
  (0 <= Game.score g' <= MAX_SCORE)%Z /\
  (Game.score Scenarios.game_bonus = MAX_SCORE -> g' = Scenarios.game_bonus).
Proof.
  apply (score_saturates Scenarios.game_bonus [Scenarios.rock; Scenarios.rock]).
  unfold MAX_SCORE; simpl; lia.
Defined.

(** C1 (amended): a score update awards at most one life: below MAX_SCORE,
    after adding the points, if the uncapped score reaches the next bonus
    threshold and lives are below MAX_LIVES, exactly one life is awarded and
    the threshold advances once by POINTS_FOR_NEW_LIFE; the score is capped
    at MAX_SCORE. *)
Theorem update_score_single_bonus (g : Game.Game) (points : Z) :
  Game.score g <> MAX_SCORE ->
  let s := (Game.score g + points)%Z in
  let award := ((Game.next_bonus_life g <=? s)
                && (Ship.lives (Game.ship g) <? MAX_LIVES))%Z in
  let g' := Game._update_score points g in
  Ship.lives (Game.ship g')
  = (if award then Ship.lives (Game.ship g) + 1 else Ship.lives (Game.ship g))%Z
  /\ Game.next_bonus_life g'
     = (if award then Game.next_bonus_life g + POINTS_FOR_NEW_LIFE
        else Game.next_bonus_life g)%Z
  /\ Game.score g' = Z.min s MAX_SCORE.
Proof.
  intros Hs. simpl.
  split; [|split].
  - unfold Game._update_score.
    destruct (Z.eqb_spec (Game.score g) MAX_SCORE); [contradiction|].
    simpl. destruct (_ && _);
      destruct (MAX_SCORE <? _)%Z; reflexivity.
  - unfold Game._update_score.
    destruct (Z.eqb_spec (Game.score g) MAX_SCORE); [contradiction|].
    simpl. destruct (_ && _);
      destruct (MAX_SCORE <? _)%Z; reflexivity.
  - rewrite update_score_score.
    destruct (Z.eqb_spec (Game.score g) MAX_SCORE); [contradiction|reflexivity].
Qed.

Lemma update_score_single_bonus_witness :
  Ship.lives (Game.ship (Game._update_score 20 Scenarios.game_bonus)) = 51%Z
  /\ Game.next_bonus_life (Game._update_score 20 Scenarios.game_bonus) = 10000%Z
  /\ Game.score (Game._update_score 20 Scenarios.game_bonus) = 10020%Z.
Proof.
  apply (update_score_single_bonus Scenarios.game_bonus 20).
  discriminate.
Defined.

(** C1 (counterexample): at score 10000 with the next threshold at 5000 and
    50 lives, a hit worth 20 points crosses two thresholds (5000 and 10000);
    the code awards one life (51), the loop of the claim awards two (52). *)
Lemma update_score_single_bonus_counterexample :
  Ship.lives (Game.ship (Game._update_score 20 Scenarios.game_bonus)) = 51%Z
  /\ Ship.lives (Game.ship (SpecSide.update_score_loop 20 Scenarios.game_bonus))
     = 52%Z.
Proof. split; reflexivity. Qed.

(** ** Ship speed without thrust *)
Section ShipSpeed.
Open Scope R_scope.

Lemma ship_update_thrusting (s : Ship.Ship) :
  Ship.thrusting (Ship.update s) = Ship.thrusting s.
Proof.
  unfold Ship.update. destruct (Ship.is_exploding s); [reflexivity|].
  destruct (Ship.thrusting s) eqn:Ht;
    repeat match goal with
           | |- context [Rlt_dec ?a ?b] => destruct (Rlt_dec a b)
           | |- context [Util.wrap_position ?p] => destruct (Util.wrap_position p)
           end; simpl; auto.
Qed.

Lemma scaled_magnitude (vx vy k : R) :
  0 <= k <= 1 ->
  SpecSide.magnitude (vx * k) (vy * k) <= SpecSide.magnitude vx vy.
Proof.
  intros Hk. unfold SpecSide.magnitude. apply sqrt_le_1_alt.
  assert (0 <= vx * vx + vy * vy) by nra.
  replace (vx * k * (vx * k) + vy * k * (vy * k))
    with ((k * k) * (vx * vx + vy * vy)) by ring.
  assert (k * k <= 1) by nra. nra.
Qed.

Lemma ship_update_speed (s : Ship.Ship) :
  Ship.thrusting s = false ->
  SpecSide.magnitude (Ship.vx (Ship.update s)) (Ship.vy (Ship.update s))
  <= SpecSide.magnitude (Ship.vx s) (Ship.vy s).
Proof.
  intros Ht. unfold Ship.update.
  destruct (Ship.is_exploding s); [lra|].
  rewrite Ht.
  destruct (Rlt_dec (IZR MAX_SPEED) (Py.norm (Ship.vx s) (Ship.vy s))) as [Hsp|Hsp].
  - destruct (Util.wrap_position _). simpl.
    set (sp := Py.norm (Ship.vx s) (Ship.vy s)) in *.
    unfold MAX_SPEED in Hsp.
    assert (Hk : 0 <= IZR MAX_SPEED / sp <= 1).
    { unfold MAX_SPEED. split.
      - unfold Rdiv. apply Rmult_le_pos; [lra|].
        left. apply Rinv_0_lt_compat. lra.
      - apply Rmult_le_reg_r with sp; [lra|].
        unfold Rdiv. rewrite Rmult_assoc, Rinv_l by lra. lra. }
    replace (Ship.vx s * (IZR MAX_SPEED / sp) * 0.995)
      with (Ship.vx s * (IZR MAX_SPEED / sp * 0.995)) by ring.
    replace (Ship.vy s * (IZR MAX_SPEED / sp) * 0.995)
      with (Ship.vy s * (IZR MAX_SPEED / sp * 0.995)) by ring.
    apply scaled_magnitude. nra.
  - destruct (Util.wrap_position _). simpl.
    apply scaled_magnitude. lra.
Qed.

(** C7: for a ship that is not thrusting, the velocity magnitude after
    [n] calls of [update()] is non-increasing in [n]. *)
Theorem ship_speed_nonincreasing (s : Ship.Ship) (m n : nat) :
  Ship.thrusting s = false -> (m <= n)%nat ->
  let s_n := Nat.iter n Ship.update s in
  let s_m := Nat.iter m Ship.update s in
  SpecSide.magnitude (Ship.vx s_n) (Ship.vy s_n)
  <= SpecSide.magnitude (Ship.vx s_m) (Ship.vy s_m).
Proof.
  intros Ht Hmn. simpl.
  assert (Hthr : forall k, Ship.thrusting (Nat.iter k Ship.update s) = false).
  { induction k; simpl; [exact Ht|]. rewrite ship_update_thrusting. exact IHk. }
  induction Hmn as [|n Hmn IH].
  - lra.
  - simpl. eapply Rle_trans; [apply ship_update_speed, Hthr | exact IH].
Qed.
End ShipSpeed.

Lemma ship_speed_nonincreasing_witness :
  let s := Ship.mkShip 96 80 7 (-3) 45 false 4 0 in
  (SpecSide.magnitude (Ship.vx (Nat.iter 3 Ship.update s))
                      (Ship.vy (Nat.iter 3 Ship.update s))
   <= SpecSide.magnitude (Ship.vx (Nat.iter 1 Ship.update s))
                         (Ship.vy (Nat.iter 1 Ship.update s)))%R.
Proof.
  apply (ship_speed_nonincreasing (Ship.mkShip 96 80 7 (-3) 45 false 4 0) 1 3);
    [reflexivity | lia].
Defined.

(** ** Drawing the score and the lives *)
Section DrawNumbers.
Open Scope Z_scope.

Lemma fold_digits_shift (l : list ascii) (a : Z) :
  fold_left SpecSide.digit_step l a
  = a * 10 ^ Z.of_nat (List.length l) + fold_left SpecSide.digit_step l 0.
Proof.
  revert a. induction l as [|c l IH]; intros a; cbn [fold_left List.length].
  - simpl. lia.
  - rewrite IH, (IH (SpecSide.digit_step 0 c)). unfold SpecSide.digit_step.
    rewrite Nat2Z.inj_succ, Z.pow_succ_r by lia. ring.
Qed.

Lemma digit_char_value (n : Z) :
  0 <= n -> Z.of_nat (nat_of_ascii (ascii_of_nat (48 + Z.to_nat (n mod 10)))) - 48
            = n mod 10.
Proof.
  intros Hn. pose proof (Z.mod_pos_bound n 10 ltac:(lia)).
  rewrite nat_ascii_embedding by lia. lia.
Qed.

Lemma digits_spec (fuel : nat) (n : Z) (acc : list ascii) :
  0 <= n < 10 ^ Z.of_nat fuel ->
  SpecSide.decimal_value (FrameBuffer.digits fuel n acc)
  = n * 10 ^ Z.of_nat (List.length acc) + SpecSide.decimal_value acc
  /\ (Forall (fun c => SpecSide.is_digit c = true) acc ->
      Forall (fun c => SpecSide.is_digit c = true) (FrameBuffer.digits fuel n acc)).
Proof.
  revert n acc. induction fuel as [|fuel IH]; intros n acc Hn; cbn [FrameBuffer.digits].
  - simpl in Hn. assert (n = 0) by lia. subst. split; [lia | auto].
  - set (c := ascii_of_nat (48 + Z.to_nat (n mod 10))).
    assert (Hc : SpecSide.is_digit c = true).
    { unfold SpecSide.is_digit, c. pose proof (Z.mod_pos_bound n 10 ltac:(lia)).
      rewrite nat_ascii_embedding by lia.
      apply andb_true_intro; split; apply Nat.leb_le; lia. }
    assert (Hval : SpecSide.decimal_value (c :: acc)
                   = n mod 10 * 10 ^ Z.of_nat (List.length acc)
                     + SpecSide.decimal_value acc).
    { unfold SpecSide.decimal_value. cbn [fold_left].
      rewrite fold_digits_shift.
      unfold SpecSide.digit_step at 1.
      unfold c. rewrite digit_char_value by lia. ring. }
    destruct (Z.ltb_spec n 10).
    + split; [|auto].
      rewrite Hval, Z.mod_small by lia. reflexivity.
    + assert (Hq : 0 <= n / 10 < 10 ^ Z.of_nat fuel).
      { split; [apply Z.div_pos; lia|].
        apply Z.div_lt_upper_bound; [lia|].
        rewrite Nat2Z.inj_succ, Z.pow_succ_r in Hn by lia. lia. }
      destruct (IH (n / 10) (c :: acc) Hq) as [IH1 IH2].
      split; [| intros; apply IH2; auto].
      rewrite IH1, Hval. cbn [List.length]. rewrite Nat2Z.inj_succ, Z.pow_succ_r by lia.
      pose proof (Z.div_mod n 10 ltac:(lia)).
      set (q := n / 10) in *. set (r := n mod 10) in *.
      set (P := 10 ^ Z.of_nat (List.length acc)) in *.
      rewrite H0. ring.
Qed.

Lemma str_spec (n : Z) :
  0 <= n ->
  SpecSide.decimal_value (list_ascii_of_string (FrameBuffer.str n)) = n
  /\ Forall (fun c => SpecSide.is_digit c = true)
       (list_ascii_of_string (FrameBuffer.str n)).
Proof.
  intros Hn. unfold FrameBuffer.str.
  destruct (Z.ltb_spec n 0); [lia|].
  rewrite list_ascii_of_string_of_list_ascii.
  assert (Hf : 0 <= n < 10 ^ Z.of_nat (S (Z.to_nat (Z.log2 n)))).
  { split; [lia|]. rewrite Nat2Z.inj_succ, Z2Nat.id by apply Z.log2_nonneg.
    destruct (Z.eq_dec n 0) as [->|Hn0]; [simpl; lia|].
    destruct (Z.log2_spec n ltac:(lia)) as [_ H2].
    eapply Z.lt_le_trans; [exact H2|].
    apply Z.pow_le_mono_l; lia. }
  destruct (digits_spec _ _ [] Hf) as [H1 H2].
  split; [rewrite H1; unfold SpecSide.decimal_value; cbn; lia | apply H2; constructor].
Qed.

(** C8: [draw_score] raises exactly when the score is outside
    [0, MAX_SCORE] and [draw_lives] exactly when the lives are outside
    [0, MAX_LIVES]; within range each draws, right-aligned, the string of the
    value's decimal digits and does not raise. *)
Theorem draw_score_lives_ranges (fb : FrameBuffer.FrameBuffer)
    (score lives : Z) (color : FrameBuffer.Color) :
  ((exists e, FrameBuffer.draw_score fb score color = inl e)
     <-> ~ (0 <= score <= MAX_SCORE))
  /\ (0 <= score <= MAX_SCORE ->
      FrameBuffer.draw_score fb score color
      = inr (FrameBuffer.draw_text_right_aligned fb (FrameBuffer.width / 2)
               SCORE_TOP_MARGIN (FrameBuffer.str score)
               (FrameBuffer._score_font fb) color)
      /\ SpecSide.decimal_value (list_ascii_of_string (FrameBuffer.str score)) = score
      /\ Forall (fun c => SpecSide.is_digit c = true)
           (list_ascii_of_string (FrameBuffer.str score)))
  /\ ((exists e, FrameBuffer.draw_lives fb lives color = inl e)
      <-> ~ (0 <= lives <= MAX_LIVES))
  /\ (0 <= lives <= MAX_LIVES ->
      FrameBuffer.draw_lives fb lives color
      = inr (FrameBuffer.draw_text_right_aligned fb
               (FrameBuffer.width - LIVES_RIGHT_MARGIN)
               SCORE_TOP_MARGIN (FrameBuffer.str lives)
               (FrameBuffer._score_font fb) color)
      /\ SpecSide.decimal_value (list_ascii_of_string (FrameBuffer.str lives)) = lives
      /\ Forall (fun c => SpecSide.is_digit c = true)
           (list_ascii_of_string (FrameBuffer.str lives))).
Proof.
  assert (Hchk : forall (lo hi v : Z) (A : Type) (ok : A),
    ((exists e, (if negb ((lo <=? v) && (v <=? hi)) then inl Game.ValueError
                 else inr ok) = inl e) <-> ~ (lo <= v <= hi))
    /\ (lo <= v <= hi ->
        (if negb ((lo <=? v) && (v <=? hi)) then inl Game.ValueError
         else inr ok) = @inr Game.PyExn A ok)).
  { intros lo hi v A ok.
    destruct (Z.leb_spec lo v), (Z.leb_spec v hi); simpl;
      (split; [split; [intros [e He]; try discriminate; lia
                      | intros Hn; try (exists Game.ValueError; reflexivity); lia]
              | intros; try reflexivity; lia]). }
  unfold FrameBuffer.draw_score, FrameBuffer.draw_lives.
  destruct (Hchk 0 MAX_SCORE score _
              (FrameBuffer.draw_text_right_aligned fb (FrameBuffer.width / 2)
                 SCORE_TOP_MARGIN (FrameBuffer.str score)
                 (FrameBuffer._score_font fb) color)) as [Hs1 Hs2].
  destruct (Hchk 0 MAX_LIVES lives _
              (FrameBuffer.draw_text_right_aligned fb
                 (FrameBuffer.width - LIVES_RIGHT_MARGIN)
                 SCORE_TOP_MARGIN (FrameBuffer.str lives)
                 (FrameBuffer._score_font fb) color)) as [Hl1 Hl2].
  split; [exact Hs1|]. split.
  { intros Hr. split; [apply Hs2, Hr | apply str_spec; lia]. }
  split; [exact Hl1|].
  intros Hr. split; [apply Hl2, Hr | apply str_spec; lia].
Qed.
End DrawNumbers.

(** ** Asteroid splitting *)
Section Split.
Open Scope R_scope.

Lemma rotated_norm_sq (th vx vy : R) :
  (cos th * vx + - sin th * vy) * (cos th * vx + - sin th * vy)
  + (sin th * vx + cos th * vy) * (sin th * vx + cos th * vy)
  = vx * vx + vy * vy.
Proof.
  pose proof (sin2_cos2 th) as H. unfold Rsqr in H.
  transitivity ((sin th * sin th + cos th * cos th) * (vx * vx + vy * vy));
    [ring | rewrite H; ring].
Qed.

Lemma sum_sq_nonzero (vx vy : R) :
  vx <> 0 \/ vy <> 0 -> sqrt (vx * vx + vy * vy) <> 0.
Proof.
  intros Hv Hs. apply sqrt_eq_0 in Hs; [|nra].
  destruct Hv as [Hv|Hv]; apply Hv; nra.
Qed.

Lemma rescale_magnitude (s vx vy : R) :
  0 <= s -> vx <> 0 \/ vy <> 0 ->
  SpecSide.magnitude (fst (SpecSide.rescale s (vx, vy)))
                     (snd (SpecSide.rescale s (vx, vy))) = s.
Proof.
  intros Hs Hv. unfold SpecSide.magnitude, SpecSide.rescale; simpl.
  pose proof (sum_sq_nonzero vx vy Hv) as Hn.
  set (n := sqrt (vx * vx + vy * vy)) in *.
  assert (Hnn : n * n = vx * vx + vy * vy)
    by (unfold n; apply sqrt_sqrt; nra).
  replace (vx / n * s * (vx / n * s) + vy / n * s * (vy / n * s))
    with (s * s * ((vx * vx + vy * vy) / (n * n))) by (field; exact Hn).
  rewrite <- Hnn. unfold Rdiv. rewrite Rinv_r by (apply Rmult_integral_contrapositive; tauto).
  rewrite Rmult_1_r. apply sqrt_square, Hs.
Qed.

Lemma permute_velocity_eq (v : R * R) (deg : Z) (sz : Asteroid.Size)
    (u : R) (r : list R) :
  fst v <> 0 \/ snd v <> 0 ->
  Game.permute_velocity v deg sz (u :: r)
  = (SpecSide.rescale (SpecSide.speed_of_draw sz u) (SpecSide.rotate (IZR deg) v), r).
Proof.
  destruct v as [vx vy]. simpl fst; simpl snd. intros Hv.
  unfold Game.permute_velocity, Py.norm, Py.radians.
  rewrite rotated_norm_sq.
  destruct (Req_dec_T (sqrt (vx * vx + vy * vy)) 0) as [E|_].
  { exfalso. exact (sum_sq_nonzero vx vy Hv E). }
  unfold Rand.bind, Rand.ret.
  assert (Hsp : fst (Asteroid.initialize_asteroid_speed sz (u :: r))
                = SpecSide.speed_of_draw sz u
                /\ snd (Asteroid.initialize_asteroid_speed sz (u :: r)) = r).
  { destruct sz; split; reflexivity. }
  destruct (Asteroid.initialize_asteroid_speed sz (u :: r)) as [s r'].
  simpl in Hsp. destruct Hsp as [-> ->].
  unfold SpecSide.rescale, SpecSide.rotate; simpl.
  set (th := IZR deg * PI / 180).
  replace (cos th * vx - sin th * vy) with (cos th * vx + - sin th * vy) by ring.
  rewrite rotated_norm_sq. reflexivity.
Qed.
Lemma children_cons (a : Asteroid.Asteroid) (sz : Asteroid.Size) (d : Z)
    (ds : list Z) (u : R) (r : list R) :
  Asteroid.vx a <> 0 \/ Asteroid.vy a <> 0 ->
  Game.children a sz (d :: ds) (u :: r)
  = let '(others, r') := Game.children a sz ds r in
    (SpecSide.split_child a sz (IZR d) (SpecSide.speed_of_draw sz u) :: others, r').
Proof.
  intros Hv. cbn [Game.children]. unfold Rand.bind at 1.
  rewrite permute_velocity_eq by exact Hv.
  unfold Rand.bind, Rand.ret, Asteroid.__init__, SpecSide.split_child.
  destruct (SpecSide.rescale _ _) as [w1 w2].
  cbv beta iota delta [Rand.ret Rand.bind].
  destruct (Game.children a sz ds r). reflexivity.
Qed.

Lemma children_nil (a : Asteroid.Asteroid) (sz : Asteroid.Size) (r : list R) :
  Game.children a sz [] r = ([], r).
Proof. reflexivity. Qed.

Lemma speed_of_draw_range (sz : Asteroid.Size) (u : R) :
  0 <= u < 1 ->
  fst (SpecSide.speed_range sz) <= SpecSide.speed_of_draw sz u
  < snd (SpecSide.speed_range sz).
Proof. intros Hu. unfold SpecSide.speed_of_draw; destruct sz; simpl; nra. Qed.

Lemma split_child_speed (a : Asteroid.Asteroid) (sz : Asteroid.Size) (d : Z) (u : R) :
  Asteroid.vx a <> 0 \/ Asteroid.vy a <> 0 -> 0 <= u < 1 ->
  let c := SpecSide.split_child a sz (IZR d) (SpecSide.speed_of_draw sz u) in
  SpecSide.magnitude (Asteroid.vx c) (Asteroid.vy c) = SpecSide.speed_of_draw sz u.
Proof.
  intros Hv Hu. unfold SpecSide.split_child, SpecSide.rotate. simpl.
  pose proof (speed_of_draw_range sz u Hu) as Hr.
  apply rescale_magnitude.
  - destruct sz; simpl in Hr; lra.
  - set (th := IZR d * PI / 180).
    destruct (Req_dec (cos th * Asteroid.vx a - sin th * Asteroid.vy a) 0) as [E1|E1];
      [|left; exact E1].
    right. intros E2. apply (sum_sq_nonzero _ _ Hv).
    rewrite <- (rotated_norm_sq th).
    replace (cos th * Asteroid.vx a + - sin th * Asteroid.vy a)
      with (cos th * Asteroid.vx a - sin th * Asteroid.vy a) by ring.
    rewrite E1, E2. rewrite Rmult_0_l, Rplus_0_l. apply sqrt_0.
Qed.
Lemma rand_bind_ret {A B} (x : A) (k : A -> Rand.Rand B) (r : Rand.Rng) :
  Rand.bind (Rand.ret x) k r = k x r.
Proof. reflexivity. Qed.

Lemma handle_hit_result (a : Asteroid.Asteroid) (g : Game.Game) :
  snd (Game._handle_asteroid_hit a g)
  = inr (fst (Game.handle_asteroid_hit (List.length (Game.asteroids g)) a (Game.rng g))).
Proof.
  unfold Game._handle_asteroid_hit, Game.bind, Game.get, Game.rand.
  destruct (Game.handle_asteroid_hit _ a (Game.rng g)). reflexivity.
Qed.

Lemma children_speeds (a : Asteroid.Asteroid) (sz : Asteroid.Size)
    (ds : list Z) (us : list R) :
  Asteroid.vx a <> 0 \/ Asteroid.vy a <> 0 ->
  Forall (fun u => 0 <= u < 1) us ->
  Forall (fun c => fst (SpecSide.speed_range sz)
                   <= SpecSide.magnitude (Asteroid.vx c) (Asteroid.vy c)
                   < snd (SpecSide.speed_range sz))
    (map (fun '(d, u) => SpecSide.split_child a sz (IZR d) (SpecSide.speed_of_draw sz u))
       (combine ds us)).
Proof.
  intros Hv. revert ds. induction us as [|u us IH]; intros ds Hus.
  - destruct ds; constructor.
  - inversion Hus as [|? ? Hu Hus']; subst.
    destruct ds as [|d ds]; simpl; constructor; [|apply IH, Hus'].
    rewrite split_child_speed by assumption. apply speed_of_draw_range, Hu.
Qed.
End Split.

(** C3: destroying an asteroid (with a moving parent and the generator's
    next draws [u1], [u2] in [0, 1)): a LARGE yields MEDIUM children and a
    MEDIUM yields SMALL children, a SMALL yields none.  Below the cap
    MAX_ASTEROIDS there are exactly two children, with the parent's velocity
    rotated by +20 and -20 degrees, unit-normalized and rescaled to a fresh
    speed sample of the child size (one draw each), at the parent's position
    and color; at or above the cap there is exactly one, rotated by +20 or
    -20 degrees as the random choice gives.  Every child's speed lies in the
    speed range of its size. *)
Theorem handle_asteroid_hit_split (g : Game.Game) (a : Asteroid.Asteroid)
    (u1 u2 : R) (rest : list R) :
  Game.rng g = u1 :: u2 :: rest ->
  (Asteroid.vx a <> 0 \/ Asteroid.vy a <> 0)%R ->
  (0 <= u1 < 1)%R -> (0 <= u2 < 1)%R ->
  let count := List.length (Game.asteroids g) in
  let kids := snd (Game._handle_asteroid_hit a g) in
  match SpecSide.child_size (Asteroid.size a) with
  | None => kids = inr []
  | Some cs =>
      (if (Z.of_nat count <? MAX_ASTEROIDS)%Z
       then kids = inr [SpecSide.split_child a cs 20 (SpecSide.speed_of_draw cs u1);
                        SpecSide.split_child a cs (-20) (SpecSide.speed_of_draw cs u2)]
       else exists deg : Z, (deg = 20 \/ deg = -20)%Z /\
              kids = inr [SpecSide.split_child a cs (IZR deg) (SpecSide.speed_of_draw cs u2)])
      /\ forall l, kids = inr l ->
           Forall (fun c => (fst (SpecSide.speed_range cs)
                             <= SpecSide.magnitude (Asteroid.vx c) (Asteroid.vy c)
                             < snd (SpecSide.speed_range cs))%R) l
  end.
Proof.
  intros Hrng Hv Hu1 Hu2. cbv zeta.
  rewrite handle_hit_result, Hrng.
  unfold Game.handle_asteroid_hit.
  set (count := List.length (Game.asteroids g)).
  rewrite Z.geb_leb.
  assert (Hall : Forall (fun u => (0 <= u < 1)%R) [u1; u2])
    by (constructor; [lra | constructor; [lra | constructor]]).
  assert (Hall2 : Forall (fun u => (0 <= u < 1)%R) [u2])
    by (constructor; [lra | constructor]).
  destruct (Z.ltb_spec (Z.of_nat count) MAX_ASTEROIDS) as [Hlt|Hge];
    [ rewrite (proj2 (Z.leb_gt _ _) Hlt) | rewrite (proj2 (Z.leb_le _ _) Hge) ];
    simpl negb; cbv iota.
  - rewrite rand_bind_ret.
    destruct (Asteroid.size a); simpl SpecSide.child_size; cbv iota;
      [ reflexivity | | ];
      (rewrite children_cons, children_cons, children_nil by exact Hv;
       split; [reflexivity|];
       intros l Hl; injection Hl as <-;
       exact (children_speeds a _ [20; -20]%Z [u1; u2] Hv Hall)).
  - unfold Rand.choice. cbv beta iota delta [Rand.bind Rand.random Rand.ret].
    set (deg := nth _ [20; -20]%Z 20%Z).
    assert (Hdeg : (deg = 20 \/ deg = -20)%Z).
    { unfold deg. destruct (Z.to_nat _) as [|[|k]]; simpl; auto.
      destruct k; auto. }
    destruct (Asteroid.size a); simpl SpecSide.child_size; cbv iota;
      [ reflexivity | | ];
      (rewrite children_cons, children_nil by exact Hv;
       split; [exists deg; split; [exact Hdeg | reflexivity]|];
       intros l Hl; injection Hl as <-;
       exact (children_speeds a _ [deg] [u2] Hv Hall2)).
Qed.

Lemma handle_asteroid_hit_split_witness :
  let g := Scenarios.game_hit in
  let a := Scenarios.rock in
  let count := List.length (Game.asteroids g) in
  let kids := snd (Game._handle_asteroid_hit a g) in
  match SpecSide.child_size (Asteroid.size a) with
  | None => kids = inr []
  | Some cs =>
      (if (Z.of_nat count <? MAX_ASTEROIDS)%Z
       then kids = inr [SpecSide.split_child a cs 20 (SpecSide.speed_of_draw cs 0.5);
                        SpecSide.split_child a cs (-20) (SpecSide.speed_of_draw cs 0.25)]
       else exists deg : Z, (deg = 20 \/ deg = -20)%Z /\
              kids = inr [SpecSide.split_child a cs (IZR deg) (SpecSide.speed_of_draw cs 0.25)])
      /\ forall l, kids = inr l ->
           Forall (fun c => (fst (SpecSide.speed_range cs)
                             <= SpecSide.magnitude (Asteroid.vx c) (Asteroid.vy c)
                             < snd (SpecSide.speed_range cs))%R) l
  end.
Proof.
  apply (handle_asteroid_hit_split Scenarios.game_hit Scenarios.rock 0.5 0.25 []).
  - reflexivity.
  - left. simpl. lra.
  - lra.
  - lra.
Defined.

(** ** Frames after game over *)
Section GameOver.
Open Scope Z_scope.












End GameOver.

(** * Further properties of the code *)

(** ** Ship *)
Section ShipExtra.
Open Scope R_scope.

(** X1: for a ship whose direction is in [0, 360), rotating right then
    left (or left then right) gives back the same ship; every rotation
    leaves the direction in [0, 360). *)
Theorem ship_rotate_round_trip (s : Ship.Ship) :
  (0 <= Ship.direction s < 360)%Z ->
  Ship.rotate_left (Ship.rotate_right s) = s /\
  Ship.rotate_right (Ship.rotate_left s) = s /\
  (0 <= Ship.direction (Ship.rotate_right s) < 360)%Z /\
  (0 <= Ship.direction (Ship.rotate_left s) < 360)%Z.
Proof.
  intros H. destruct s as [x y vx vy d t l e]; simpl in H.
  unfold Ship.rotate_left, Ship.rotate_right; simpl.
  rewrite Zminus_mod_idemp_l, Z.add_mod_idemp_l by lia.
  replace (d + 5 - 5)%Z with d by ring. replace (d - 5 + 5)%Z with d by ring.
  rewrite Z.mod_small by lia.
  split; [reflexivity|]. split; [reflexivity|].
  split; apply Z.mod_pos_bound; lia.
Qed.

Lemma ship_rotate_round_trip_witness :
  Ship.rotate_left (Ship.rotate_right Scenarios.ship_over) = Scenarios.ship_over /\
  Ship.rotate_right (Ship.rotate_left Scenarios.ship_over) = Scenarios.ship_over /\
  (0 <= Ship.direction (Ship.rotate_right Scenarios.ship_over) < 360)%Z /\
  (0 <= Ship.direction (Ship.rotate_left Scenarios.ship_over) < 360)%Z.
Proof.
  apply (ship_rotate_round_trip Scenarios.ship_over). simpl; lia.
Defined.

Lemma iter_update_explosion (s : Ship.Ship) (n : nat) :
  (0 <= Ship.exploding s)%Z ->
  let s' := Nat.iter n Ship.update_explosion s in
  Ship.exploding s' = Z.max 0 (Ship.exploding s - Z.of_nat n) /\
  Ship.lives s' = Ship.lives s /\ Ship.x s' = Ship.x s /\ Ship.y s' = Ship.y s.
Proof.
  intros He. induction n as [|n IH]; simpl Nat.iter.
  - simpl. repeat split; lia.
  - destruct IH as (H1 & H2 & H3 & H4).
    unfold Ship.update_explosion at 1. simpl.
    rewrite H1, H2, H3, H4. repeat split; try reflexivity.
    destruct (Z.ltb_spec 0 (Z.max 0 (Ship.exploding s - Z.of_nat n))); lia.
Qed.

(** X2: after a collision of a ship that is not exploding, the ship stays
    exploding for exactly [_EXPLOSION_DURATION] calls of
    [update_explosion], which keep its position and its lives. *)
Theorem explosion_lasts_duration (s : Ship.Ship) (n : nat) :
  Ship.is_exploding s = false ->
  let s0 := Ship.handle_collision s in
  let s' := Nat.iter n Ship.update_explosion s0 in
  Ship.is_exploding s' = (Z.of_nat n <? Ship._EXPLOSION_DURATION)%Z /\
  Ship.lives s' = Ship.lives s0 /\ Ship.x s' = Ship.x s /\ Ship.y s' = Ship.y s.
Proof.
  intros Hs. cbv zeta.
  assert (Hc : Ship.exploding (Ship.handle_collision s) = Ship._EXPLOSION_DURATION
               /\ Ship.x (Ship.handle_collision s) = Ship.x s
               /\ Ship.y (Ship.handle_collision s) = Ship.y s).
  { unfold Ship.is_exploding in Hs. unfold Ship.handle_collision. rewrite Hs.
    simpl. auto. }
  destruct Hc as (Hc1 & Hc2 & Hc3).
  destruct (iter_update_explosion (Ship.handle_collision s) n) as (H1 & H2 & H3 & H4).
  { rewrite Hc1. unfold Ship._EXPLOSION_DURATION. lia. }
  unfold Ship.is_exploding. rewrite H1, H2, H3, H4, Hc1, Hc2, Hc3.
  repeat split; try reflexivity. unfold Ship._EXPLOSION_DURATION.
  destruct (Z.ltb_spec 0 (Z.max 0 (60 - Z.of_nat n)));
    destruct (Z.ltb_spec (Z.of_nat n) 60); lia.
Qed.

Lemma explosion_lasts_duration_witness :
  let s0 := Ship.handle_collision Scenarios.ship_over in
  let s' := Nat.iter 3 Ship.update_explosion s0 in
  Ship.is_exploding s' = (Z.of_nat 3 <? Ship._EXPLOSION_DURATION)%Z /\
  Ship.lives s' = Ship.lives s0 /\ Ship.x s' = Ship.x Scenarios.ship_over /\
  Ship.y s' = Ship.y Scenarios.ship_over.
Proof.
  apply (explosion_lasts_duration Scenarios.ship_over 3). reflexivity.
Defined.
Lemma norm_scale (a b k : R) : 0 <= k -> Py.norm (a * k) (b * k) = k * Py.norm a b.
Proof.
  intros Hk. unfold Py.norm.
  replace (a * k * (a * k) + b * k * (b * k)) with ((k * k) * (a * a + b * b)) by ring.
  rewrite sqrt_mult by nra. rewrite sqrt_square by lra. reflexivity.
Qed.

Lemma norm_nonneg (a b : R) : 0 <= Py.norm a b.
Proof. apply sqrt_pos. Qed.

(** X3: one [update()] of a ship that is not exploding leaves it inside
    the wrap band of the screen: x in [0, SCREEN_WIDTH) and
    y in [TOP_MARGIN, SCREEN_HEIGHT]. *)
Theorem ship_update_on_screen (s : Ship.Ship) :
  Ship.is_exploding s = false ->
  0 <= Ship.x (Ship.update s) < IZR SCREEN_WIDTH /\
  IZR TOP_MARGIN <= Ship.y (Ship.update s) <= IZR SCREEN_HEIGHT.
Proof.
  intros He. unfold Ship.update. rewrite He. split_update. simpl. exact Hw.
Qed.

Lemma ship_update_on_screen_witness :
  0 <= Ship.x (Ship.update Scenarios.ship_over) < IZR SCREEN_WIDTH /\
  IZR TOP_MARGIN <= Ship.y (Ship.update Scenarios.ship_over) <= IZR SCREEN_HEIGHT.
Proof. apply ship_update_on_screen. reflexivity. Defined.

(** X4: after one [update()] of a ship that is not exploding its speed is
    at most [0.995 * MAX_SPEED], whatever its velocity and thrust were. *)
Theorem ship_update_speed_cap (s : Ship.Ship) :
  Ship.is_exploding s = false ->
  Py.norm (Ship.vx (Ship.update s)) (Ship.vy (Ship.update s))
  <= 0.995 * IZR MAX_SPEED.
Proof.
  intros He. unfold Ship.update. rewrite He.
  destruct (if Ship.thrusting s then _ else _) as [a b].
  destruct (Rlt_dec (IZR MAX_SPEED) (Py.norm a b)) as [Hsp|Hsp];
    split_update; simpl.
  - set (n := Py.norm a b) in *.
    assert (Hn : 0 < n) by (unfold MAX_SPEED in Hsp; lra).
    assert (Hk : 0 <= IZR MAX_SPEED / n)
      by (unfold MAX_SPEED, Rdiv; apply Rmult_le_pos; [lra | left; apply Rinv_0_lt_compat; lra]).
    rewrite norm_scale by lra. rewrite norm_scale by exact Hk. fold n.
    replace (IZR MAX_SPEED / n * n) with (IZR MAX_SPEED) by (field; lra). lra.
  - rewrite norm_scale by lra. lra.
Qed.

Lemma ship_update_speed_cap_witness :
  Py.norm (Ship.vx (Ship.update Scenarios.ship_over))
    (Ship.vy (Ship.update Scenarios.ship_over)) <= 0.995 * IZR MAX_SPEED.
Proof. apply ship_update_speed_cap. reflexivity. Defined.
End ShipExtra.

(** ** Asteroids and projectiles *)
Section MoveExtra.
Open Scope R_scope.

(** X5: [Asteroid.update] keeps velocity, size and color and leaves the
    asteroid inside the wrap band: x in [0, SCREEN_WIDTH) and
    y in [TOP_MARGIN, SCREEN_HEIGHT]. *)
Theorem asteroid_update_on_screen (a : Asteroid.Asteroid) :
  let a' := Asteroid.update a in
  (0 <= Asteroid.x a' < IZR SCREEN_WIDTH /\
   IZR TOP_MARGIN <= Asteroid.y a' <= IZR SCREEN_HEIGHT) /\
  Asteroid.vx a' = Asteroid.vx a /\ Asteroid.vy a' = Asteroid.vy a /\
  Asteroid.size a' = Asteroid.size a /\ Asteroid.color a' = Asteroid.color a.
Proof.
  unfold Asteroid.update. split_update. simpl. auto.
Qed.

(** X6: [Projectile.update] of a live projectile takes one frame off its
    lifetime, keeps its direction and speed and leaves it inside the wrap
    band of the screen; a dead projectile is left unchanged. *)
Theorem projectile_update_spec (p : Projectile.Projectile) :
  (Projectile.is_alive p = true ->
   let p' := Projectile.update p in
   (0 <= Projectile.x p' < IZR SCREEN_WIDTH /\
    IZR TOP_MARGIN <= Projectile.y p' <= IZR SCREEN_HEIGHT) /\
   Projectile.frames_remaining p' = (Projectile.frames_remaining p - 1)%Z /\
   Projectile.direction p' = Projectile.direction p /\
   Projectile.speed p' = Projectile.speed p) /\
  (Projectile.is_alive p = false -> Projectile.update p = p).
Proof.
  unfold Projectile.update. split; intros H; rewrite H; [|reflexivity].
  cbn -[Util.wrap_position]. split_update. cbn. split; [exact Hw | auto].
Qed.

Lemma iter_projectile_frames (p : Projectile.Projectile) (n : nat) :
  (0 <= Projectile.frames_remaining p)%Z ->
  Projectile.frames_remaining (Nat.iter n Projectile.update p)
  = Z.max 0 (Projectile.frames_remaining p - Z.of_nat n).
Proof.
  intros H0. induction n as [|n IH]; simpl Nat.iter; [simpl; lia|].
  set (q := Nat.iter n Projectile.update p) in *.
  destruct (Projectile.is_alive q) eqn:Ha.
  - destruct (proj1 (projectile_update_spec q) Ha) as (_ & Hf & _).
    rewrite Hf, IH. unfold Projectile.is_alive in Ha. rewrite IH in Ha.
    apply Z.ltb_lt in Ha. lia.
  - rewrite (proj2 (projectile_update_spec q) Ha), IH.
    unfold Projectile.is_alive in Ha. rewrite IH in Ha.
    apply Z.ltb_ge in Ha. lia.
Qed.

(** X7: a projectile fired by any ship is alive for exactly
    [PROJECTILE_LIFETIME] calls of [update()]: after [n] calls it has
    [max 0 (PROJECTILE_LIFETIME - n)] frames left. *)
Theorem projectile_lifetime (s : Ship.Ship) (n : nat) :
  let p := Nat.iter n Projectile.update (Projectile.__init__ s) in
  Projectile.frames_remaining p = Z.max 0 (PROJECTILE_LIFETIME - Z.of_nat n) /\
  Projectile.is_alive p = (Z.of_nat n <? PROJECTILE_LIFETIME)%Z.
Proof.
  cbv zeta. rewrite iter_projectile_frames by (simpl; unfold PROJECTILE_LIFETIME; lia).
  unfold Projectile.is_alive. rewrite iter_projectile_frames by (simpl; unfold PROJECTILE_LIFETIME; lia).
  simpl Projectile.frames_remaining. split; [reflexivity|].
  unfold PROJECTILE_LIFETIME.
  destruct (Z.ltb_spec 0 (Z.max 0 (12 - Z.of_nat n)));
    destruct (Z.ltb_spec (Z.of_nat n) 12); lia.
Qed.

(** X8: a new projectile starts at the ship's gun, at distance 2 (the
    length of [gun_position]) from the ship's center, with the ship's
    direction, speed [PROJECTILE_SPEED] and [PROJECTILE_LIFETIME] frames. *)
Theorem projectile_spawn_at_gun (s : Ship.Ship) :
  let p := Projectile.__init__ s in
  Py.norm (Projectile.x p - Ship.x s) (Projectile.y p - Ship.y s) = 2 /\
  Projectile.direction p = Ship.direction s /\
  Projectile.speed p = IZR PROJECTILE_SPEED /\
  Projectile.frames_remaining p = PROJECTILE_LIFETIME.
Proof.
  unfold Projectile.__init__, Ship.gun_position, Py.norm. simpl.
  split; [|auto].
  set (t := Py.radians (IZR (Ship.direction s))).
  replace ((Ship.x s + (0 * cos t - 2 * sin t) - Ship.x s) *
           (Ship.x s + (0 * cos t - 2 * sin t) - Ship.x s) +
           (Ship.y s + (0 * sin t + 2 * cos t) - Ship.y s) *
           (Ship.y s + (0 * sin t + 2 * cos t) - Ship.y s))
    with (2 * 2 * (Rsqr (sin t) + Rsqr (cos t))) by (unfold Rsqr; ring).
  rewrite sin2_cos2, Rmult_1_r. apply sqrt_square. lra.
Qed.
End MoveExtra.

(** ** Collisions, score and keys *)
Section GameExtra.
Open Scope Z_scope.

(** X9: [_bounding_box_overlap] is symmetric. *)
Theorem bounding_box_overlap_sym (b1 b2 : Z * Z * Z * Z) :
  Game._bounding_box_overlap b1 b2 = Game._bounding_box_overlap b2 b1.
Proof.
  destruct b1 as [[[a0 a1] a2] a3], b2 as [[[c0 c1] c2] c3].
  unfold Game._bounding_box_overlap. f_equal.
  destruct (a2 <? c0), (c2 <? a0), (a3 <? c1), (c3 <? a1); reflexivity.
Qed.

Lemma first_hit_spec (px py : Z) (l : list Asteroid.Asteroid) (k : nat) :
  let inbox := fun a : Asteroid.Asteroid =>
    Game._pixel_in_bounding_box px py
      (Game._get_bounding_box (Asteroid.x a) (Asteroid.y a)
         (Asteroid.pixel_map_shape a) 0.9) in
  match Game.first_hit px py l k with
  | Some (i, a) =>
      (k <= i)%nat /\ nth_error l (i - k) = Some a /\ inbox a = true /\
      forall j b, (j < i - k)%nat -> nth_error l j = Some b -> inbox b = false
  | None => forall a, In a l -> inbox a = false
  end.
Proof.
  cbv zeta. revert k. induction l as [|a0 rest IH]; intros k; simpl.
  - intros a [].
  - destruct (Game._pixel_in_bounding_box px py _) eqn:H0.
    + rewrite Nat.sub_diag. repeat split; auto. intros j b Hj. lia.
    + specialize (IH (S k)).
      destruct (Game.first_hit px py rest (S k)) as [[i a]|].
      * destruct IH as (Hk & Hn & Ha & Hb).
        replace (i - k)%nat with (S (i - S k)) by lia.
        repeat split; auto; [lia|].
        intros [|j] b Hj Hjb; simpl in Hjb.
        -- injection Hjb as <-. exact H0.
        -- apply (Hb j); [lia | exact Hjb].
      * intros a [<-|Ha]; auto.
Qed.

(** X10: [_check_projectile_collision] returns the first asteroid of the
    list whose shrunk (0.9) bounding box holds the rounded projectile
    position, together with its index; it returns nothing exactly when no
    asteroid's box holds it. *)
Theorem check_projectile_collision_first (p : Projectile.Projectile)
    (l : list Asteroid.Asteroid) :
  let px := Py.round (Projectile.x p) in
  let py := Py.round (Projectile.y p) in
  let inbox := fun a : Asteroid.Asteroid =>
    Game._pixel_in_bounding_box px py
      (Game._get_bounding_box (Asteroid.x a) (Asteroid.y a)
         (Asteroid.pixel_map_shape a) 0.9) in
  match Game._check_projectile_collision p l with
  | Some (i, a) =>
      nth_error l i = Some a /\ inbox a = true /\
      forall j b, (j < i)%nat -> nth_error l j = Some b -> inbox b = false
  | None => forall a, In a l -> inbox a = false
  end.
Proof.
  cbv zeta. unfold Game._check_projectile_collision.
  pose proof (first_hit_spec (Py.round (Projectile.x p)) (Py.round (Projectile.y p)) l 0)
    as H. cbv zeta in H.
  destruct (Game.first_hit _ _ l 0) as [[i a]|]; [|exact H].
  rewrite Nat.sub_0_r in H. destruct H as (_ & H). exact H.
Qed.

(** X11: a score update by a non-negative number of points never lowers
    the score, the lives or the bonus threshold, and keeps the score at
    most MAX_SCORE and the lives at most MAX_LIVES (the awarded life is
    [Ship.award_new_life], modelled from the spec as one more life). *)
Theorem update_score_bounds (g : Game.Game) (points : Z) :
  0 <= points -> Game.score g <= MAX_SCORE ->
  Ship.lives (Game.ship g) <= MAX_LIVES ->
  let g' := Game._update_score points g in
  Game.score g <= Game.score g' <= MAX_SCORE /\
  Ship.lives (Game.ship g) <= Ship.lives (Game.ship g') <= MAX_LIVES /\
  Game.next_bonus_life g <= Game.next_bonus_life g'.
Proof.
  intros Hp Hs Hl. cbv zeta. unfold Game._update_score.
  destruct (Z.eqb_spec (Game.score g) MAX_SCORE); [lia|].
  destruct ((Game.next_bonus_life _ <=? _) && _) eqn:Ha.
  - apply andb_prop in Ha as [_ Ha]. simpl in Ha. apply Z.ltb_lt in Ha.
    simpl. destruct (Z.ltb_spec MAX_SCORE (Game.score g + points)); simpl;
      unfold POINTS_FOR_NEW_LIFE; lia.
  - simpl. destruct (Z.ltb_spec MAX_SCORE (Game.score g + points)); simpl; lia.
Qed.

Lemma update_score_bounds_witness :
  let g' := Game._update_score 20 Scenarios.game_bonus in
  Game.score Scenarios.game_bonus <= Game.score g' <= MAX_SCORE /\
  Ship.lives (Game.ship Scenarios.game_bonus) <= Ship.lives (Game.ship g') <= MAX_LIVES /\
  Game.next_bonus_life Scenarios.game_bonus <= Game.next_bonus_life g'.
Proof.
  apply update_score_bounds; unfold MAX_SCORE, MAX_LIVES; simpl; lia.
Defined.

(** X12: [handle_key] never changes the score, the level, the asteroids,
    the random state, the respawn countdown, the bonus threshold, nor the
    ship's position, lives and explosion state. *)
Theorem handle_key_frame (k : Game.Key) (pressed : bool) (g : Game.Game) :
  let g' := Game.handle_key k pressed g in
  Game.score g' = Game.score g /\ Game.level g' = Game.level g /\
  Game.asteroids g' = Game.asteroids g /\ Game.rng g' = Game.rng g /\
  Game.respawn_countdown g' = Game.respawn_countdown g /\
  Game.next_bonus_life g' = Game.next_bonus_life g /\
  Ship.x (Game.ship g') = Ship.x (Game.ship g) /\
  Ship.y (Game.ship g') = Ship.y (Game.ship g) /\
  Ship.lives (Game.ship g') = Ship.lives (Game.ship g) /\
  Ship.exploding (Game.ship g') = Ship.exploding (Game.ship g).
Proof.
  unfold Game.handle_key.
  repeat match goal with |- context [if ?b then _ else _] => destruct b end;
    game_fields; repeat split.
Qed.

(** X13: with the splash screen dismissed, FIRE does nothing at all while
    the respawn countdown runs or the ship explodes. *)
Theorem fire_blocked (g : Game.Game) (pressed : bool) :
  Game.show_splash_screen g = false ->
  (0 < Game.respawn_countdown g \/ Ship.is_exploding (Game.ship g) = true) ->
  Game.handle_key Game.FIRE pressed g = g.
Proof.
  intros Hs Hb. unfold Game.handle_key, Game._respawn_delay_active. rewrite Hs.
  simpl. destruct pressed; [|reflexivity]. simpl.
  destruct Hb as [Hb|Hb].
  - apply Z.ltb_lt in Hb. rewrite Hb. reflexivity.
  - rewrite Hb, andb_false_r. reflexivity.
Qed.

Lemma fire_blocked_witness :
  Game.handle_key Game.FIRE true
    (Game.with_respawn_countdown 5 Scenarios.game_over_state)
  = Game.with_respawn_countdown 5 Scenarios.game_over_state.
Proof.
  apply fire_blocked; [reflexivity | left; simpl; lia].
Defined.
(** X14: while the respawn countdown runs and the ship is not exploding,
    [_update_ship] only counts the countdown down by one: the ship is
    neither moved nor checked for collisions. *)
Theorem update_ship_respawn_delay (g : Game.Game) :
  Ship.is_exploding (Game.ship g) = false -> 0 < Game.respawn_countdown g ->
  Game._update_ship g
  = (Game.with_respawn_countdown (Game.respawn_countdown g - 1) g, inr tt).
Proof.
  intros He Hc. apply Z.ltb_lt in Hc.
  unfold Game._update_ship, Game.bind, Game.get. rewrite He.
  unfold Game._respawn_delay_active. rewrite Hc.
  unfold Game._update_respawn_delay, Game.modify. rewrite Hc. reflexivity.
Qed.

Lemma update_ship_respawn_delay_witness :
  Game._update_ship (Game.with_respawn_countdown 5 Scenarios.game_over_state)
  = (Game.with_respawn_countdown 4
       (Game.with_respawn_countdown 5 Scenarios.game_over_state), inr tt).
Proof.
  apply (update_ship_respawn_delay
           (Game.with_respawn_countdown 5 Scenarios.game_over_state));
    simpl; [reflexivity | lia].
Defined.





End GameExtra.
(** ** The projectile pass *)
Section ProjectilePass.
Open Scope Z_scope.

Lemma returns_ret {A} (P : A -> Prop) (a : A) : P a -> returns P (Game.ret a).
Proof. intros H g. exists a. auto. Qed.

Lemma returns_bind {A B} (P : A -> Prop) (Q : B -> Prop) (m : Game.M A)
    (k : A -> Game.M B) :
  returns P m -> (forall a, P a -> returns Q (k a)) -> returns Q (Game.bind m k).
Proof.
  intros Hm Hk g. unfold Game.bind. destruct (Hm g) as [a [Ha HP]].
  destruct (m g) as [g' r]. simpl in Ha. subst r. apply Hk, HP.
Qed.

Lemma returns_get : returns (fun _ => True) Game.get.
Proof. intros g. exists g. auto. Qed.

Lemma returns_modify (f : Game.Game -> Game.Game) :
  returns (fun _ => True) (Game.modify f).
Proof. intros g. exists tt. auto. Qed.

Lemma returns_rand {A} (m : Rand.Rand A) : returns (fun _ => True) (Game.rand m).
Proof.
  intros g. unfold Game.rand. destruct (m (Game.rng g)) as [a r]. exists a. auto.
Qed.

Lemma returns_handle_hit (a : Asteroid.Asteroid) :
  returns (fun _ => True) (Game._handle_asteroid_hit a).
Proof.
  unfold Game._handle_asteroid_hit.
  apply (returns_bind (fun _ => True)); [apply returns_get|].
  intros g _. apply returns_rand.
Qed.

Lemma projectiles_loop_kept (ps : list Projectile.Projectile) :
  returns (fun r : list Projectile.Projectile * list nat * list Asteroid.Asteroid =>
             let '(kept, _, _) := r in
             Forall (fun q => Projectile.is_alive q = true) kept /\
             incl kept (map Projectile.update ps) /\
             (List.length kept <= List.length ps)%nat)
    (Game.projectiles_loop ps).
Proof.
  induction ps as [|p ps IH]; simpl.
  - apply returns_ret. simpl. split; [constructor|]. split; [intros q []|]. lia.
  - apply (returns_bind
             (fun step : option Projectile.Projectile * list nat * list Asteroid.Asteroid =>
                let '(kept, _, _) := step in
                match kept with
                | Some q => Projectile.is_alive q = true /\ q = Projectile.update p
                | None => True
                end)).
    + destruct (Projectile.is_alive (Projectile.update p)) eqn:Ha.
      * apply (returns_bind (fun _ => True)); [apply returns_get|]. intros g _.
        destruct (Game._check_projectile_collision _ _) as [[i h]|].
        -- apply (returns_bind (fun _ => True)); [apply returns_modify|]. intros _ _.
           apply (returns_bind (fun _ => True)); [apply returns_handle_hit|].
           intros kids _. apply returns_ret. exact I.
        -- apply returns_ret. simpl. auto.
      * apply returns_ret. exact I.
    + intros [[kept marked] kids] Hstep.
      apply (returns_bind _ _ _ _ IH).
      intros [[kept' marked'] kids'] (HF & Hi & Hlen).
      apply returns_ret. simpl. destruct kept as [q|].
      * destruct Hstep as [Hq ->]. split; [constructor; auto|]. split.
        -- intros r [<-|Hr]; [left; reflexivity | right; apply Hi, Hr].
        -- simpl. lia.
      * split; [exact HF|]. split.
        -- intros r Hr. right. apply Hi, Hr.
        -- simpl. lia.
Qed.

(** X16: the projectile pass never raises; afterwards every projectile
    left is alive and is the update of one of the projectiles before the
    pass, and there are no more projectiles than before. *)
Theorem update_projectiles_kept (g : Game.Game) :
  let g' := fst (Game._update_projectiles g) in
  snd (Game._update_projectiles g) = inr tt /\
  Forall (fun q => Projectile.is_alive q = true) (Game.projectiles g') /\
  incl (Game.projectiles g') (map Projectile.update (Game.projectiles g)) /\
  (List.length (Game.projectiles g') <= List.length (Game.projectiles g))%nat.
Proof.
  cbv zeta.
  destruct (projectiles_loop_kept (Game.projectiles g) g) as [r [Hr HP]].
  destruct (Game.projectiles_loop (Game.projectiles g) g) as [g1 r1] eqn:E.
  simpl in Hr. subst r1. destruct r as [[kept marked] kids].
  destruct HP as (HF & Hi & Hlen).
  unfold Game._update_projectiles, Game.bind, Game.get. rewrite E. simpl. auto.
Qed.
End ProjectilePass.
(** ** Random draws *)
Section Draws.
Open Scope R_scope.

Lemma rgood_ret {A} (P : A -> Prop) (a : A) : P a -> rgood P (Rand.ret a).
Proof. intros H r Hr. split; [exact H | exact Hr]. Qed.

Lemma rgood_bind {A B} (P : A -> Prop) (Q : B -> Prop) (m : Rand.Rand A)
    (k : A -> Rand.Rand B) :
  rgood P m -> (forall a, P a -> rgood Q (k a)) -> rgood Q (Rand.bind m k).
Proof.
  intros Hm Hk r Hr. unfold Rand.bind. destruct (Hm r Hr) as [HP Hr'].
  destruct (m r) as [a r']. simpl in *. apply Hk; assumption.
Qed.

Lemma rgood_weaken {A} (P Q : A -> Prop) (m : Rand.Rand A) :
  rgood P m -> (forall a, P a -> Q a) -> rgood Q m.
Proof. intros Hm HPQ r Hr. destruct (Hm r Hr). auto. Qed.

Lemma rgood_random : rgood (fun u => 0 <= u < 1) Rand.random.
Proof.
  intros [|u r] Hr; simpl.
  - split; [lra | constructor].
  - inversion Hr; subst. auto.
Qed.

Lemma rgood_uniform (lo hi : R) :
  lo <= hi -> rgood (fun v => lo <= v /\ (lo < hi -> v < hi)) (Rand.uniform lo hi).
Proof.
  intros Hlh. unfold Rand.uniform. apply (rgood_bind _ _ _ _ rgood_random).
  intros u Hu. apply rgood_ret. split; [nra|]. intros. nra.
Qed.

Lemma floor_range (v : R) (k : Z) : 0 <= v < IZR k -> (0 <= Py.floor v < k)%Z.
Proof.
  intros Hv. unfold Py.floor. destruct (base_Int_part v) as [H1 H2].
  split.
  - assert (-1 < Int_part v)%Z by (apply lt_IZR; lra). lia.
  - apply lt_IZR. lra.
Qed.

Lemma rgood_randint (lo hi : Z) :
  (lo < hi)%Z -> rgood (fun v => lo <= v < hi)%Z (Rand.randint lo hi).
Proof.
  intros Hlh. unfold Rand.randint. apply (rgood_bind _ _ _ _ rgood_random).
  intros u Hu. apply rgood_ret.
  assert (Hk : 0 < IZR (hi - lo)) by (apply IZR_lt; lia).
  pose proof (floor_range (IZR (hi - lo) * u) (hi - lo)) as Hf.
  assert (Hv : 0 <= IZR (hi - lo) * u < IZR (hi - lo)) by nra.
  specialize (Hf Hv). lia.
Qed.

Lemma rgood_choice {A} (d : A) (xs : list A) : rgood (fun _ => True) (Rand.choice d xs).
Proof.
  unfold Rand.choice. apply (rgood_bind _ _ _ _ rgood_random).
  intros u _. apply rgood_ret. exact I.
Qed.

Lemma rgood_uniform_range (lo hi : R) :
  lo < hi -> rgood (fun v => lo <= v < hi) (Rand.uniform lo hi).
Proof.
  intros Hlh. apply (rgood_weaken _ _ _ (rgood_uniform lo hi ltac:(lra))).
  intros v [H1 H2]. split; [exact H1 | exact (H2 Hlh)].
Qed.

Lemma rgood_speed (sz : Asteroid.Size) :
  rgood (fun v => fst (SpecSide.speed_range sz) <= v < snd (SpecSide.speed_range sz))
    (Asteroid.initialize_asteroid_speed sz).
Proof.
  destruct sz; cbn [SpecSide.speed_range Asteroid.initialize_asteroid_speed fst snd];
    apply rgood_uniform_range; lra.
Qed.

Lemma norm_polar (t v : R) : 0 <= v -> Py.norm (cos t * v) (sin t * v) = v.
Proof.
  intros Hv. unfold Py.norm.
  replace (cos t * v * (cos t * v) + sin t * v * (sin t * v))
    with (v * v * (Rsqr (sin t) + Rsqr (cos t))) by (unfold Rsqr; ring).
  rewrite sin2_cos2, Rmult_1_r. apply sqrt_square, Hv.
Qed.

Lemma rgood_asteroid_init (x0 y0 : R) (sz : Asteroid.Size) (c : Z * Z * Z) (m : R) :
  0 < m ->
  rgood (fun a => Asteroid.x a = x0 /\ Asteroid.y a = y0 /\ Asteroid.size a = sz /\
                  Asteroid.color a = c /\
                  m * fst (SpecSide.speed_range sz)
                  <= Py.norm (Asteroid.vx a) (Asteroid.vy a)
                  < m * snd (SpecSide.speed_range sz))
    (Asteroid.__init__ x0 y0 sz c None m).
Proof.
  intros Hm.
  unfold Asteroid.__init__. apply (rgood_bind _ _ _ _ (rgood_speed sz)).
  intros sp Hsp. cbv zeta.
  apply (rgood_bind (fun _ => True)).
  { pose proof PI_RGT_0.
    apply (rgood_weaken _ _ _ (rgood_uniform 0 (2 * PI) ltac:(lra))). auto. }
  intros t _. apply rgood_ret.
  assert (Hpos : 0 <= sp * m).
  { destruct sz; cbn [SpecSide.speed_range fst snd] in Hsp; nra. }
  cbn [Asteroid.x Asteroid.y Asteroid.size Asteroid.color Asteroid.vx Asteroid.vy].
  rewrite norm_polar by exact Hpos.
  destruct Hsp as [H1 H2].
  repeat split; auto; nra.
Qed.

(** X17: an asteroid created without a velocity and with a positive
    [speed_multiplier] m, from draws in [0, 1), is placed where asked,
    keeps its size and color, and moves at a speed in m times the range of
    its size: [0.1, 0.15) for LARGE, [0.15, 0.2) for MEDIUM, [0.2, 0.3) for
    SMALL. *)
Theorem asteroid_init_speed (x0 y0 : R) (sz : Asteroid.Size) (c : Z * Z * Z)
    (m : R) (r : Rand.Rng) :
  0 < m -> unit_draws r ->
  let a := fst (Asteroid.__init__ x0 y0 sz c None m r) in
  Asteroid.x a = x0 /\ Asteroid.y a = y0 /\ Asteroid.size a = sz /\
  Asteroid.color a = c /\
  m * fst (SpecSide.speed_range sz) <= Py.norm (Asteroid.vx a) (Asteroid.vy a)
  < m * snd (SpecSide.speed_range sz).
Proof. intros Hm Hr. exact (proj1 (rgood_asteroid_init x0 y0 sz c m Hm r Hr)). Qed.

Lemma asteroid_init_speed_witness :
  let a := fst (Asteroid.__init__ 10 50 Asteroid.LARGE (128, 128, 128)%Z None 2
                  [0.5; 0.25]) in
  Asteroid.x a = 10 /\ Asteroid.y a = 50 /\ Asteroid.size a = Asteroid.LARGE /\
  Asteroid.color a = (128, 128, 128)%Z /\
  2 * fst (SpecSide.speed_range Asteroid.LARGE) <= Py.norm (Asteroid.vx a) (Asteroid.vy a)
  < 2 * snd (SpecSide.speed_range Asteroid.LARGE).
Proof.
  apply asteroid_init_speed; [lra|].
  constructor; [lra | constructor; [lra | constructor]].
Defined.
End Draws.
(** ** Wave spawning and the constructor *)
Section SpawnExtra.
Open Scope R_scope.

Ltac consts := unfold SCREEN_WIDTH, SCREEN_HEIGHT, TOP_MARGIN,
  ASTEROID_SPAWN_RADIUS in *; lia.

Lemma rgood_randint_any (lo hi : Z) :
  (lo < hi)%Z -> rgood (fun _ => True) (Rand.randint lo hi).
Proof.
  intros H. apply (rgood_weaken _ _ _ (rgood_randint lo hi H)). auto.
Qed.

Lemma rgood_spawn_one : rgood spawn_ok Game.spawn_one.
Proof.
  unfold Game.spawn_one. cbv zeta.
  apply (rgood_bind (fun _ => True) _ _ _ (rgood_choice _ _)). intros edge _.
  apply (rgood_bind (fun xy => (0 <= fst xy < SCREEN_WIDTH /\
                                TOP_MARGIN <= snd xy < SCREEN_HEIGHT)%Z)).
  { destruct edge;
      (eapply rgood_bind; [apply rgood_randint; consts|]); intros x0 Hx0;
      (eapply rgood_bind; [apply rgood_randint; consts|]); intros y0 Hy0;
      apply rgood_ret; cbn [fst snd]; consts. }
  intros xy Hxy.
  apply (rgood_bind _ _ _ _ rgood_random). intros u _.
  apply (rgood_bind _ _ _ _ (rgood_randint_any 64 192 ltac:(lia))). intros c0 _.
  apply (rgood_bind _ _ _ _ (rgood_randint_any 64 192 ltac:(lia))). intros c1 _.
  apply (rgood_bind _ _ _ _ (rgood_randint_any 64 192 ltac:(lia))). intros c2 _.
  eapply rgood_weaken; [apply rgood_asteroid_init; lra|].
  intros a (Hx & Hy & Hs & _ & Hv). unfold spawn_ok. rewrite Hx, Hy, Hs.
  destruct Hxy as [[Hx1 Hx2] [Hy1 Hy2]].
  split; [|split; [|lra]].
  - split; [apply (IZR_le 0) | apply IZR_lt]; lia.
  - split; [apply IZR_le | apply IZR_lt]; lia.
Qed.

Lemma rgood_spawn_n (n : nat) :
  rgood (fun l => List.length l = n /\ Forall spawn_ok l) (Game.spawn_n n).
Proof.
  induction n as [|n IH]; simpl.
  - apply rgood_ret. auto.
  - apply (rgood_bind _ _ _ _ rgood_spawn_one). intros a Ha.
    apply (rgood_bind _ _ _ _ IH). intros l [Hl HF].
    apply rgood_ret. simpl. auto.
Qed.

Lemma spawn_asteroids_run (count : Z) (g : Game.Game) :
  unit_draws (Game.rng g) ->
  exists l r',
    Game._spawn_asteroids count g =
      (Game.with_asteroids (Game.asteroids g ++ l) (Game.with_rng r' g), inr tt) /\
    List.length l = Z.to_nat count /\ Forall spawn_ok l /\ unit_draws r'.
Proof.
  intros Hr.
  destruct (rgood_spawn_n (Z.to_nat count) (Game.rng g) Hr) as [[Hl HF] Hr'].
  unfold Game._spawn_asteroids, Game.bind, Game.rand, Game.modify.
  destruct (Game.spawn_n (Z.to_nat count) (Game.rng g)) as [l r'].
  exists l, r'. auto.
Qed.

(** X18: from draws in [0, 1), [_spawn_asteroids(count)] never raises and
    appends exactly [count] asteroids to the existing ones, each inside the
    play area and moving at a speed in the range of its size; the rest of
    the state is untouched apart from the generator, whose later draws are
    still in [0, 1). *)
Theorem spawn_asteroids_spec (count : Z) (g : Game.Game) :
  unit_draws (Game.rng g) ->
  exists l r',
    Game._spawn_asteroids count g =
      (Game.with_asteroids (Game.asteroids g ++ l) (Game.with_rng r' g), inr tt) /\
    List.length l = Z.to_nat count /\ Forall spawn_ok l /\ unit_draws r'.
Proof. exact (spawn_asteroids_run count g). Qed.

Lemma spawn_asteroids_spec_witness :
  exists l r',
    Game._spawn_asteroids 2 Scenarios.game_over_state =
      (Game.with_asteroids (Game.asteroids Scenarios.game_over_state ++ l)
         (Game.with_rng r' Scenarios.game_over_state), inr tt) /\
    List.length l = Z.to_nat 2 /\ Forall spawn_ok l /\ unit_draws r'.
Proof.
  apply spawn_asteroids_spec. vm_compute. constructor.
Defined.

(** X19: a new [Game()], from draws in [0, 1), starts on the splash screen
    at level 1 with score 0, no projectiles, no respawn delay, the first
    bonus life at 5000 points, a fresh ship with 4 lives, and 12 asteroids,
    each inside the play area with a speed in the range of its size. *)
Theorem game_init_spec (r : Rand.Rng) :
  unit_draws r ->
  let g := Game.__init__ r in
  Game.score g = 0%Z /\ Game.level g = 1%Z /\ Game.show_splash_screen g = true /\
  Game.respawn_countdown g = 0%Z /\ Game.next_bonus_life g = 5000%Z /\
  Game.projectiles g = [] /\ Game.ship g = Ship.__init__ /\
  Ship.lives (Game.ship g) = 4%Z /\
  List.length (Game.asteroids g) = 12%nat /\ Forall spawn_ok (Game.asteroids g).
Proof.
  intros Hr. unfold Game.__init__. cbv zeta.
  destruct (spawn_asteroids_run ASTEROID_SPAWN_COUNT
              (Game.mkGame 0 Ship.__init__ true 0 1 POINTS_FOR_NEW_LIFE [] [] r) Hr)
    as (l & r' & E & Hl & HF & _).
  rewrite E. cbn. repeat split; auto.
Qed.

Lemma game_init_spec_witness :
  let g := Game.__init__ [0.5; 0.25] in
  Game.score g = 0%Z /\ Game.level g = 1%Z /\ Game.show_splash_screen g = true /\
  Game.respawn_countdown g = 0%Z /\ Game.next_bonus_life g = 5000%Z /\
  Game.projectiles g = [] /\ Game.ship g = Ship.__init__ /\
  Ship.lives (Game.ship g) = 4%Z /\
  List.length (Game.asteroids g) = 12%nat /\ Forall spawn_ok (Game.asteroids g).
Proof.
  apply game_init_spec.
  constructor; [lra | constructor; [lra | constructor]].
Defined.
End SpawnExtra.
(** ** Clearing a wave *)
Section LevelUp.
Open Scope Z_scope.


Lemma ship_update_lives (s : Ship.Ship) : Ship.lives (Ship.update s) = Ship.lives s.
Proof.
  unfold Ship.update. destruct (Ship.is_exploding s); [reflexivity|].
  split_update. reflexivity.
Qed.



End LevelUp.
(** ** Drawing text *)
Section TextExtra.
Open Scope Z_scope.

(** X21: [blit] (the masked assignment of [draw_text_right_aligned]) sets
    a pixel to the color exactly when it is on the screen and is the image
    of one of the points under the offset; every other pixel, in particular
    every pixel off the screen, keeps its value. *)
Theorem blit_spec (px : FrameBuffer.Pixels) (pts : list (Z * Z)) (xo yo : Z)
    (col : FrameBuffer.Color) (r c : Z) :
  FrameBuffer.blit px pts xo yo col r c =
  if (0 <=? c) && (c <? FrameBuffer.width) && (0 <=? r) && (r <? FrameBuffer.height)
     && existsb (fun '(pr, pc) => (r =? pr + yo) && (c =? pc + xo)) pts
  then col else px r c.
Proof.
  unfold FrameBuffer.blit. revert px.
  induction pts as [|[pr pc] pts IH]; intros px; simpl.
  - rewrite andb_false_r. reflexivity.
  - rewrite IH. unfold FrameBuffer.set_pixel.
    match goal with |- context [existsb ?f pts] => remember (existsb f pts) as E end.
    remember ((0 <=? c) && (c <? FrameBuffer.width) && (0 <=? r)
              && (r <? FrameBuffer.height)) as A.
    remember ((0 <=? pc + xo) && (pc + xo <? FrameBuffer.width) && (0 <=? pr + yo)
              && (pr + yo <? FrameBuffer.height)) as Ap.
    destruct (r =? pr + yo) eqn:Hr, (c =? pc + xo) eqn:Hc; simpl.
    + apply Z.eqb_eq in Hr, Hc. subst r c.
      destruct A, E, Ap; simpl; rewrite ?Z.eqb_refl; simpl; congruence.
    + destruct A, E, Ap; simpl; rewrite ?Hr, ?Hc; reflexivity.
    + destruct A, E, Ap; simpl; rewrite ?Hr, ?Hc; reflexivity.
    + destruct A, E, Ap; simpl; rewrite ?Hr, ?Hc; reflexivity.
Qed.

Lemma blit_untouched (px : FrameBuffer.Pixels) (pts : list (Z * Z)) (xo yo : Z)
    (col : FrameBuffer.Color) (r c : Z) :
  (forall pr pc, In (pr, pc) pts -> r <> pr + yo \/ c <> pc + xo) ->
  FrameBuffer.blit px pts xo yo col r c = px r c.
Proof.
  intros H. unfold FrameBuffer.blit. revert px.
  induction pts as [|[pr pc] pts IH]; intros px; simpl; [reflexivity|].
  rewrite IH by (intros; apply H; right; assumption).
  destruct (_ && _); [|reflexivity]. unfold FrameBuffer.set_pixel.
  destruct (H pr pc (or_introl eq_refl)) as [Hn|Hn].
  - apply Z.eqb_neq in Hn. rewrite Hn. reflexivity.
  - apply Z.eqb_neq in Hn. rewrite Hn, andb_false_r. reflexivity.
Qed.

Lemma nonzero_in (pm : FrameBuffer.Glyph) (r c : Z) :
  In (r, c) (FrameBuffer.nonzero pm) ->
  0 <= r /\ exists row, In row pm /\ 0 <= c < Z.of_nat (List.length row).
Proof.
  unfold FrameBuffer.nonzero. rewrite in_flat_map.
  intros [[r' row] [Hin H]]. rewrite in_map_iff in H.
  destruct H as [[c' v] [Heq Hf]]. injection Heq as <- <-.
  apply filter_In in Hf as [Hf _].
  pose proof (in_combine_l _ _ _ _ Hf) as Hc.
  pose proof (in_combine_l _ _ _ _ Hin) as Hr.
  pose proof (in_combine_r _ _ _ _ Hin) as Hrow.
  rewrite in_map_iff in Hc, Hr.
  destruct Hc as [k [<- Hk]]. rewrite in_seq in Hk.
  destruct Hr as [k' [<- _]].
  split; [lia|]. exists row. split; [exact Hrow | lia].
Qed.

Lemma nonzero_col (pm : FrameBuffer.Glyph) (r c : Z) :
  rectangular pm -> In (r, c) (FrameBuffer.nonzero pm) ->
  0 <= r /\ 0 <= c < snd (FrameBuffer.shape pm).
Proof.
  intros Hrect Hin. destruct (nonzero_in pm r c Hin) as [Hr [row [Hrow Hc]]].
  unfold rectangular in Hrect. rewrite Forall_forall in Hrect.
  rewrite <- (Hrect row Hrow). lia.
Qed.

Lemma shape_width_nonneg (pm : FrameBuffer.Glyph) : 0 <= snd (FrameBuffer.shape pm).
Proof. destruct pm; simpl; lia. Qed.

Lemma chars_width_cons (font : FrameBuffer.Font) (ch : ascii) (l : list ascii) :
  chars_width font (ch :: l) =
  snd (FrameBuffer.shape (FrameBuffer.get_character font ch)) + 2 + chars_width font l.
Proof. unfold chars_width. cbn [fold_right List.length]. lia. Qed.

Lemma chars_width_lower (font : FrameBuffer.Font) (l : list ascii) :
  -2 <= chars_width font l.
Proof.
  induction l as [|ch l IH]; [unfold chars_width; simpl; lia|].
  rewrite chars_width_cons. pose proof (shape_width_nonneg (FrameBuffer.get_character font ch)).
  lia.
Qed.

Lemma fold_widths_app (font : FrameBuffer.Font) (l1 l2 : list ascii) :
  fold_right (fun ch acc => snd (FrameBuffer.shape (FrameBuffer.get_character font ch)) + acc)
    0 (l1 ++ l2) =
  fold_right (fun ch acc => snd (FrameBuffer.shape (FrameBuffer.get_character font ch)) + acc)
    0 l1 +
  fold_right (fun ch acc => snd (FrameBuffer.shape (FrameBuffer.get_character font ch)) + acc)
    0 l2.
Proof. induction l1 as [|ch l1 IH]; [reflexivity|]. cbn [app fold_right]. rewrite IH. ring. Qed.

Lemma chars_width_rev (font : FrameBuffer.Font) (l : list ascii) :
  chars_width font (rev l) = chars_width font l.
Proof.
  unfold chars_width. rewrite length_rev. f_equal.
  induction l as [|ch l IH]; [reflexivity|].
  cbn [rev]. rewrite fold_widths_app, IH. cbn [fold_right]. ring.
Qed.

Lemma length_list_ascii_of_string (s : string) :
  List.length (list_ascii_of_string s) = String.length s.
Proof. induction s; simpl; auto. Qed.

Lemma text_width_chars (font : FrameBuffer.Font) (text : string) :
  FrameBuffer.text_width font text = chars_width font (list_ascii_of_string text).
Proof.
  unfold FrameBuffer.text_width, chars_width. rewrite length_list_ascii_of_string.
  reflexivity.
Qed.

Lemma draw_chars_untouched (font : FrameBuffer.Font) (color : FrameBuffer.Color)
    (y : Z) (l : list ascii) :
  (forall ch, rectangular (FrameBuffer.get_character font ch)) ->
  forall x px r c, (c < x - chars_width font l \/ x <= c \/ r < y) ->
  FrameBuffer.draw_chars font color y l x px r c = px r c.
Proof.
  intros Hrect. induction l as [|ch l IH]; intros x px r c Hc; [reflexivity|].
  cbn [FrameBuffer.draw_chars]. cbv zeta.
  rewrite chars_width_cons in Hc. pose proof (chars_width_lower font l).
  pose proof (shape_width_nonneg (FrameBuffer.get_character font ch)) as Hw.
  destruct (FrameBuffer.shape (FrameBuffer.get_character font ch)) as [h w] eqn:Hs.
  cbn [snd] in Hc, Hw.
  rewrite IH by lia.
  apply blit_untouched. intros pr pc Hin.
  destruct (nonzero_col _ pr pc (Hrect ch) Hin) as [Hpr Hpc].
  rewrite Hs in Hpc. cbn [snd] in Hpc. lia.
Qed.

(** X22: [draw_text_right_aligned(x, y, text, font)], for a font whose
    glyphs are rectangular, changes no pixel in a column at or right of
    [x], left of [x] minus the width of the text (the glyph widths plus 2
    between neighbours), or in a row above [y]. *)
Theorem draw_text_right_aligned_region (fb : FrameBuffer.FrameBuffer) (x y : Z)
    (text : string) (font : FrameBuffer.Font) (color : FrameBuffer.Color) :
  (forall ch, rectangular (FrameBuffer.get_character font ch)) ->
  forall r c, c < x - FrameBuffer.text_width font text \/ x <= c \/ r < y ->
  FrameBuffer.frame_buffer (FrameBuffer.draw_text_right_aligned fb x y text font color) r c
  = FrameBuffer.frame_buffer fb r c.
Proof.
  intros Hrect r c Hc. unfold FrameBuffer.draw_text_right_aligned. cbn.
  apply draw_chars_untouched; [exact Hrect|].
  rewrite chars_width_rev, <- text_width_chars. exact Hc.
Qed.

Lemma draw_text_right_aligned_region_witness :
  let font := FrameBuffer.mkFont (fun _ => [[1; 1]; [1; 0]]) in
  let fb := FrameBuffer.mkFrameBuffer (fun _ _ => (0, 0, 0)) font font in
  (forall ch, rectangular (FrameBuffer.get_character font ch)) /\
  (3 < 20 - FrameBuffer.text_width font "12" \/ 20 <= 3 \/ 5 < 3) /\
  FrameBuffer.frame_buffer (FrameBuffer.draw_text_right_aligned fb 20 3 "12" font
    (255, 0, 0)) 5 3 = FrameBuffer.frame_buffer fb 5 3.
Proof.
  cbv zeta.
  assert (Hr : forall ch, rectangular (FrameBuffer.get_character
                 (FrameBuffer.mkFont (fun _ => [[1; 1]; [1; 0]])) ch)).
  { intros ch. constructor; [reflexivity | constructor; [reflexivity | constructor]]. }
  assert (Hc : 3 < 20 - FrameBuffer.text_width
                 (FrameBuffer.mkFont (fun _ => [[1; 1]; [1; 0]])) "12" \/ 20 <= 3 \/ 5 < 3)
    by (left; vm_compute; reflexivity).
  split; [exact Hr | split; [exact Hc |]].
  exact (draw_text_right_aligned_region _ 20 3 "12" _ (255, 0, 0) Hr 5 3 Hc).
Defined.

(** X23: [draw_text_centered(x, y, text, font)], for a font whose glyphs
    are rectangular, changes only pixels in rows from [y] down and in the
    columns [x + w // 2 - w <= c < x + w // 2], where [w] is the width of
    the text. *)
Theorem draw_text_centered_region (fb : FrameBuffer.FrameBuffer) (x y : Z)
    (text : string) (font : FrameBuffer.Font) (color : FrameBuffer.Color) :
  (forall ch, rectangular (FrameBuffer.get_character font ch)) ->
  let w := FrameBuffer.text_width font text in
  forall r c, c < x + w / 2 - w \/ x + w / 2 <= c \/ r < y ->
  FrameBuffer.frame_buffer (FrameBuffer.draw_text_centered fb x y text font color) r c
  = FrameBuffer.frame_buffer fb r c.
Proof.
  intros Hrect w r c Hc. unfold FrameBuffer.draw_text_centered, FrameBuffer.draw_text_right_aligned.
  cbn. apply draw_chars_untouched; [exact Hrect|].
  rewrite chars_width_rev, <- text_width_chars. exact Hc.
Qed.

Lemma draw_text_centered_region_witness :
  let font := FrameBuffer.mkFont (fun _ => [[1; 1]; [1; 0]]) in
  let fb := FrameBuffer.mkFrameBuffer (fun _ _ => (0, 0, 0)) font font in
  (forall ch, rectangular (FrameBuffer.get_character font ch)) /\
  FrameBuffer.frame_buffer (FrameBuffer.draw_text_centered fb 20 3 "12" font
    (255, 0, 0)) 5 40 = FrameBuffer.frame_buffer fb 5 40.
Proof.
  cbv zeta.
  assert (Hr : forall ch, rectangular (FrameBuffer.get_character
                 (FrameBuffer.mkFont (fun _ => [[1; 1]; [1; 0]])) ch)).
  { intros ch. constructor; [reflexivity | constructor; [reflexivity | constructor]]. }
  split; [exact Hr |].
  apply (draw_text_centered_region _ 20 3 "12" _ (255, 0, 0) Hr 5 40).
  right; left. vm_compute. discriminate.
Defined.
End TextExtra.
(** ** Removing hit asteroids *)
Section RemoveExtra.

Lemma remove_none_from (A : Type) (l : list A) (k m : nat) :
  (k < m)%nat ->
  map snd (filter (fun '(j, _) => negb (existsb (Nat.eqb j) [k]))
    (combine (seq m (List.length l)) l)) = l.
Proof.
  revert m. induction l as [|b l IH]; intros m Hm; [reflexivity|].
  cbn [List.length seq combine filter existsb].
  replace (m =? k)%nat with false by (symmetry; apply Nat.eqb_neq; lia).
  cbn. f_equal. apply IH. lia.
Qed.

Lemma remove_one_from (A : Type) (l : list A) (k i : nat) :
  map snd (filter (fun '(j, _) => negb (existsb (Nat.eqb j) [k + i]%nat))
    (combine (seq k (List.length l)) l)) = firstn i l ++ skipn (S i) l.
Proof.
  revert k i. induction l as [|a l IH]; intros k i; [destruct i; reflexivity|].
  cbn [List.length seq combine filter existsb].
  destruct i as [|i].
  - rewrite Nat.add_0_r, Nat.eqb_refl. cbn. apply remove_none_from. lia.
  - replace (k =? k + S i)%nat with false by (symmetry; apply Nat.eqb_neq; lia).
    cbn. f_equal. replace (k + S i)%nat with (S k + i)%nat by lia. apply IH.
Qed.

(** X24: removing the single marked index [i] from a list with
    [_remove_items] drops exactly the element at position [i], keeping the
    others in order; an index past the end removes nothing. *)
Theorem remove_items_single (A : Type) (l : list A) (i : nat) :
  Game._remove_items l [i] = firstn i l ++ skipn (S i) l.
Proof. unfold Game._remove_items. exact (remove_one_from A l 0 i). Qed.
End RemoveExtra.
(** ** The first frame of play *)
Section FirstFrame.
Open Scope Z_scope.


End FirstFrame.
